(** * chip8_go: a shallow embedding of [chip8.go] and its properties

    The interpreter state [Chip8], the constructor [NewChip], the loader
    [LoadROM] and the single-step function [Cycle] are transcribed from the
    Go source.  Fixed-size Go arrays are lists indexed with stdpp's lookup
    and insert; Go's unsigned integers are [Z] with the wrap-around written
    out; an index-out-of-range runtime panic is [None]; text printed with
    [fmt.Print] is returned as a list of strings. *)

From Stdlib Require Import ZArith Lia String Ascii.
From stdpp Require Import base option list.

Local Open Scope Z_scope.

(** ** Machine integers *)

(** [uint8] / [byte] and [uint16] conversions and arithmetic wrap. *)
Definition u8 (z : Z) : Z := z mod 256.
Definition u16 (z : Z) : Z := z mod 65536.

(** ** Arrays with Go's bounds check *)

(** [a[i]] as an expression: panics (here [None]) when [i] is out of range.
    Every index of the source is unsigned, so [Z.to_nat] loses nothing. *)
Definition index {A} (a : list A) (i : Z) : option A := a !! Z.to_nat i.

(** [a[i] = v] as a statement: panics when [i] is out of range. *)
Definition store {A} (a : list A) (i : Z) (v : A) : option (list A) :=
  if decide (Z.to_nat i < length a)%nat then Some (<[Z.to_nat i := v]> a) else None.

(** [a[y][x] = v] on an array of arrays. *)
Definition store2 {A} (a : list (list A)) (y x : Z) (v : A) : option (list (list A)) :=
  row ← index a y;
  row' ← store row x v;
  store a y row'.

(** ** The state *)

Record Chip8 : Type := mkChip8 {
  registers : list Z;        (* [16]byte *)
  program_counter : Z;       (* uint16 *)
  index_register : Z;        (* uint16 *)
  stack : list Z;            (* [16]uint16 *)
  delay_timer : Z;           (* uint8 *)
  sound_timer : Z;           (* uint8 *)
  memory : list Z;           (* [4096]byte *)
  display : list (list Z);   (* [32][64]int *)
  keypad : list Z            (* [16]uint16 *)
}.

Definition set_registers (v : list Z) (c : Chip8) : Chip8 :=
  mkChip8 v (program_counter c) (index_register c) (stack c) (delay_timer c)
          (sound_timer c) (memory c) (display c) (keypad c).

Definition set_program_counter (v : Z) (c : Chip8) : Chip8 :=
  mkChip8 (registers c) v (index_register c) (stack c) (delay_timer c)
          (sound_timer c) (memory c) (display c) (keypad c).

Definition set_index_register (v : Z) (c : Chip8) : Chip8 :=
  mkChip8 (registers c) (program_counter c) v (stack c) (delay_timer c)
          (sound_timer c) (memory c) (display c) (keypad c).

Definition set_memory (v : list Z) (c : Chip8) : Chip8 :=
  mkChip8 (registers c) (program_counter c) (index_register c) (stack c)
          (delay_timer c) (sound_timer c) v (display c) (keypad c).

Definition set_display (v : list (list Z)) (c : Chip8) : Chip8 :=
  mkChip8 (registers c) (program_counter c) (index_register c) (stack c)
          (delay_timer c) (sound_timer c) (memory c) v (keypad c).

(** ** [NewChip] *)

Definition fontset : list Z :=
  [ 0xF0; 0x90; 0x90; 0x90; 0xF0;
    0x20; 0x60; 0x20; 0x20; 0x70;
    0xF0; 0x10; 0xF0; 0x80; 0xF0;
    0xF0; 0x10; 0xF0; 0x10; 0xF0;
    0x90; 0x90; 0xF0; 0x10; 0x10;
    0xF0; 0x80; 0xF0; 0x10; 0xF0;
    0xF0; 0x80; 0xF0; 0x90; 0xF0;
    0xF0; 0x10; 0x20; 0x40; 0x40;
    0xF0; 0x90; 0xF0; 0x90; 0xF0;
    0xF0; 0x90; 0xF0; 0x10; 0xF0;
    0xF0; 0x90; 0xF0; 0x90; 0x90;
    0xE0; 0x90; 0xE0; 0x90; 0xE0;
    0xF0; 0x80; 0x80; 0x80; 0xF0;
    0xE0; 0x90; 0x90; 0x90; 0xE0;
    0xF0; 0x80; 0xF0; 0x80; 0xF0;
    0xF0; 0x80; 0xF0; 0x80; 0x80 ].

(** The zero value of [[32][64]int]. *)
Definition zero_display : list (list Z) := replicate 32 (replicate 64 0).

(** [new(Chip8)]: every field is zero. *)
Definition zero_chip : Chip8 :=
  mkChip8 (replicate 16 0) 0 0 (replicate 16 0) 0 0 (replicate 4096 0)
          zero_display (replicate 16 0).

(** [for i := 0; i < 80; i++ { chip.memory[i] = fontset[i] }], counting the
    iterations left in [n]. *)
Fixpoint load_fontset (n : nat) (i : Z) (mem : list Z) : option (list Z) :=
  match n with
  | O => Some mem
  | S n' =>
      b ← index fontset i;
      mem' ← store mem i b;
      load_fontset n' (i + 1) mem'
  end.

Definition NewChip : option Chip8 :=
  let chip := set_program_counter 0x200 zero_chip in
  mem ← load_fontset 80 0 (memory chip);
  Some (set_memory mem chip).

(** The state [NewChip] returns, in closed form (see [NewChip_returns]). *)
Definition initial_chip : Chip8 :=
  mkChip8 (replicate 16 0) 0x200 0 (replicate 16 0) 0 0
          (fontset ++ replicate 4016 0) zero_display (replicate 16 0).

(** ** [GetNibbles] *)

Definition GetNibbles (val bits binary_and : Z) : Z :=
  Z.shiftr (Z.land val binary_and) bits.

(** ** Printed text *)

Definition newline : string := String "010"%char EmptyString.
Definition msg_could_not_read : string := String.append "Could not read file " newline.
Definition msg_too_big : string :=
  String.append "File size too big to fit into memory! " newline.
Definition msg_invalid_opcode : string := String.append "Invalid Opcode" newline.

(** ** [LoadROM] *)

(** [for _, byte := range data { chip.memory[mem_value] = byte; mem_value++ }] *)
Fixpoint load_bytes (data : list Z) (mem_value : Z) (mem : list Z) : option (list Z) :=
  match data with
  | [] => Some mem
  | byte :: rest =>
      mem' ← store mem mem_value byte;
      load_bytes rest (u16 (mem_value + 1)) mem'
  end.

(** [file] is what [os.ReadFile(path)] gave: [None] for an error, [Some data]
    for the bytes read.  The result carries the state, the returned [bool] and
    the text printed. *)
Definition LoadROM (chip : Chip8) (file : option (list Z))
  : option (Chip8 * bool * list string) :=
  match file with
  | None => Some (chip, false, [msg_could_not_read])
  | Some data =>
      let mem_value := program_counter chip in
      if mem_value + Z.of_nat (length data) >=? Z.of_nat (length (memory chip))
      then Some (chip, false, [msg_too_big])
      else
        mem ← load_bytes data mem_value (memory chip);
        Some (set_memory mem chip, true, [])
  end.

(** ** [Cycle] *)

(** [int(uint16(chip.memory[pc])<<8 | uint16(chip.memory[pc+1]))] *)
Definition fetch (chip : Chip8) : option Z :=
  hi ← index (memory chip) (program_counter chip);
  lo ← index (memory chip) (u16 (program_counter chip + 1));
  Some (Z.lor (u16 (Z.shiftl hi 8)) lo).

(** The inner loop of DXYN, [for j := 7; j >= 0; j--], with [n = j + 1]
    iterations left.  It returns the display, the registers and the column
    [x], which the source declares outside both loops. *)
Fixpoint draw_row (n : nat) (sprite_byte x y : Z)
    (disp : list (list Z)) (regs : list Z)
  : option (list (list Z) * list Z * Z) :=
  match n with
  | O => Some (disp, regs, x)
  | S j' =>
      let j := Z.of_nat j' in
      let mask := u8 (Z.shiftl 1 j) in
      let bit := Z.shiftr (Z.land sprite_byte mask) j in
      collide ←
        (if bit =? 1
         then row ← index disp y; pixel ← index row x; Some (pixel =? 1)
         else Some false);
      '(sprite_byte', disp', regs') ←
        (if collide : bool
         then
           regs' ← store regs 15 1;
           Some (Z.land sprite_byte (u8 (Z.lnot mask)), disp, regs')
         else
           disp' ← store2 disp y x 1;
           Some (sprite_byte, disp', regs));
      if x >? 62 then Some (disp', regs', x)
      else draw_row j' sprite_byte' (u8 (x + 1)) y disp' regs'
  end.

(** The outer loop of DXYN, [for i := range n_bytes], with [n] iterations
    left. *)
Fixpoint draw_rows (n : nat) (i x y : Z) (disp : list (list Z)) (regs : list Z)
    (mem : list Z) (I : Z) : option (list (list Z) * list Z) :=
  match n with
  | O => Some (disp, regs)
  | S n' =>
      sprite_byte ← index mem (u16 (I + u16 i));
      '(disp', regs', x') ← draw_row 8 sprite_byte x y disp regs;
      let y' := u8 (y + 1) in
      if y' >? 30 then Some (disp', regs')
      else draw_rows n' (i + 1) x' y' disp' regs' mem I
  end.

(** The [switch opcode_nibble_1] statement of [Cycle], on the fetched
    [opcode]. *)
Definition execute (chip : Chip8) (opcode : Z) : option (Chip8 * list string) :=
  let opcode_nibble_1 := GetNibbles opcode 12 0xF000 in
  match opcode_nibble_1 with
  | 0 =>
      let chip := set_display zero_display chip in
      Some (set_program_counter (u16 (program_counter chip + 2)) chip, [])
  | 1 =>
      Some (set_program_counter (u16 (GetNibbles opcode 0 0x0FFF)) chip, [])
  | 6 =>
      let val := GetNibbles opcode 0 0x00FF in
      let reg1 := GetNibbles opcode 8 0x0F00 in
      regs ← store (registers chip) reg1 (u8 val);
      let chip := set_registers regs chip in
      Some (set_program_counter (u16 (program_counter chip + 2)) chip, [])
  | 7 =>
      let val := GetNibbles opcode 0 0x00FF in
      let reg1 := GetNibbles opcode 8 0x0F00 in
      old ← index (registers chip) reg1;
      regs ← store (registers chip) reg1 (u8 (old + u8 val));
      let chip := set_registers regs chip in
      Some (set_program_counter (u16 (program_counter chip + 2)) chip, [])
  | 10 =>
      let val := GetNibbles opcode 0 0x0FFF in
      let chip := set_index_register (u16 val) chip in
      Some (set_program_counter (u16 (program_counter chip + 2)) chip, [])
  | 13 =>
      let reg1 := GetNibbles opcode 8 0x0F00 in
      let reg2 := GetNibbles opcode 4 0x00F0 in
      x ← index (registers chip) reg1;
      y ← index (registers chip) reg2;
      let n_bytes := GetNibbles opcode 0 0x000F in
      let x := Z.land x 63 in
      let y := Z.land y 31 in
      regs ← store (registers chip) 15 0;
      '(disp, regs) ← draw_rows (Z.to_nat n_bytes) 0 x y (display chip) regs
                                (memory chip) (index_register chip);
      let chip := set_display disp (set_registers regs chip) in
      Some (set_program_counter (u16 (program_counter chip + 2)) chip, [])
  | _ => Some (chip, [msg_invalid_opcode])
  end.

(** One call of [Cycle]: the next state and the text printed, or [None] when
    the Go runtime panics on an index out of range. *)
Definition Cycle (chip : Chip8) : option (Chip8 * list string) :=
  opcode ← fetch chip;
  execute chip opcode.

(** [n] consecutive calls of [Cycle], as the loop of [main] makes them, with
    the printed text concatenated ([PrintDisplay] only reads the state and is
    left out). *)
Fixpoint Cycles (n : nat) (chip : Chip8) : option (Chip8 * list string) :=
  match n with
  | O => Some (chip, [])
  | S n' =>
      '(chip', out) ← Cycle chip;
      '(chip'', out') ← Cycles n' chip';
      Some (chip'', out ++ out')
  end.

(** ** States that are values of the Go type

    A [Chip8] of the model is a value of the Go struct when its arrays have
    the declared lengths and its integers lie in the range of their types. *)

Definition is_u8 (z : Z) : Prop := 0 <= z < 256.
Definition is_u16 (z : Z) : Prop := 0 <= z < 65536.
Definition is_int (z : Z) : Prop := - 2 ^ 63 <= z < 2 ^ 63.

Definition wf_regs (r : list Z) : Prop := length r = 16%nat ∧ Forall is_u8 r.
Definition wf_words (w : list Z) : Prop := length w = 16%nat ∧ Forall is_u16 w.
Definition wf_mem (m : list Z) : Prop := length m = 4096%nat ∧ Forall is_u8 m.
Definition wf_row (row : list Z) : Prop := length row = 64%nat ∧ Forall is_int row.
Definition wf_display (d : list (list Z)) : Prop :=
  length d = 32%nat ∧ Forall wf_row d.

Record wf (c : Chip8) : Prop := mk_wf {
  wf_registers : wf_regs (registers c);
  wf_program_counter : is_u16 (program_counter c);
  wf_index_register : is_u16 (index_register c);
  wf_stack : wf_words (stack c);
  wf_delay_timer : is_u8 (delay_timer c);
  wf_sound_timer : is_u8 (sound_timer c);
  wf_memory : wf_mem (memory c);
  wf_disp : wf_display (display c);
  wf_keypad : wf_words (keypad c)
}.

#[global] Instance is_u8_dec z : Decision (is_u8 z).
Proof. unfold is_u8. apply _. Defined.
#[global] Instance is_u16_dec z : Decision (is_u16 z).
Proof. unfold is_u16. apply _. Defined.
#[global] Instance is_int_dec z : Decision (is_int z).
Proof. unfold is_int. apply _. Defined.
#[global] Instance wf_row_dec row : Decision (wf_row row).
Proof. unfold wf_row. apply _. Defined.

(** [wf] as a decidable conjunction, to check it on a concrete state. *)
Definition wf_check (c : Chip8) : Prop :=
  wf_regs (registers c) ∧
  (is_u16 (program_counter c) ∧ is_u16 (index_register c)) ∧
  wf_words (stack c) ∧
  (is_u8 (delay_timer c) ∧ is_u8 (sound_timer c)) ∧
  wf_mem (memory c) ∧ wf_display (display c) ∧ wf_words (keypad c).

#[global] Instance wf_check_dec c : Decision (wf_check c).
Proof. unfold wf_check, wf_regs, wf_words, wf_mem, wf_display. apply _. Defined.

(** The bytes of a file that was read. *)
Definition file_bytes (file : option (list Z)) : Prop :=
  match file with
  | Some data => Forall is_u8 data
  | None => True
  end.

(** ** Reading the switch and the display *)

(** The case labels of the switch. *)
Definition implemented : list Z := [0; 1; 6; 7; 10; 13].

(** [display[y][x]] as an expression. *)
Definition pixel (disp : list (list Z)) (y x : Z) : option Z :=
  row ← index disp y;
  index row x.

(** ** Runs of the program *)

(** The first two statements of [main]: [NewChip()] and then [LoadROM] of a
    file holding [rom], whose result [main] ignores. *)
Definition boot (rom : list Z) : option Chip8 :=
  chip ← NewChip;
  '(chip, _, _) ← LoadROM chip (Some rom);
  Some chip.

Definition booted (rom : list Z) : Chip8 := default initial_chip (boot rom).

(** Successive calls of [LoadROM], their results ignored as [main] does. *)
Fixpoint Loads (files : list (option (list Z))) (chip : Chip8) : option Chip8 :=
  match files with
  | [] => Some chip
  | file :: rest =>
      '(chip', _, _) ← LoadROM chip file;
      Loads rest chip'
  end.

(** The states the machine can be in: the one [NewChip] returns, and those a
    call of [LoadROM] or of [Cycle] returns from such a state. *)
Inductive reachable : Chip8 → Prop :=
  | reachable_new chip :
      NewChip = Some chip → reachable chip
  | reachable_load chip file chip' ok out :
      reachable chip → file_bytes file →
      LoadROM chip file = Some (chip', ok, out) → reachable chip'
  | reachable_cycle chip chip' out :
      reachable chip → Cycle chip = Some (chip', out) → reachable chip'.

(** ** The programs and states of the examples *)

Definition scenario : list Z := [0x00; 0xE0; 0x60; 0x05; 0x61; 0x0A; 0x80; 0x14].

(** V0 = 10; V1 = 5; I = 0x20A; DXY1 with X = 0, Y = 1, twice; the sprite
    byte 0xFF at 0x20A. *)
Definition sprite_twice : list Z :=
  [0x60; 0x0A; 0x61; 0x05; 0xA2; 0x0A; 0xD0; 0x11; 0xD0; 0x11; 0xFF].

(** The state [main] is in after [n] cycles on [rom]. *)
Definition ran (rom : list Z) (n : nat) : Chip8 :=
  default initial_chip (fst <$> (boot rom ≫= Cycles n)).

(** The state after V3 = 0xF0 (63 F0), about to execute 73 2A. *)
Definition chip_7XNN : Chip8 := ran [0x63; 0xF0; 0x73; 0x2A] 1.

(** The state before the two draws of [sprite_twice]: V0 = 10, V1 = 5,
    I = 0x20A, the display all off. *)
Definition chip_before_draw : Chip8 := ran sprite_twice 3.

(** ** The cells a DXYN visits

    The source declares the column [x] outside both loops and never resets
    it, so row [m] of a sprite starts where row [m-1] stopped; and it tests
    [y > 30] after the increment, so a row after the first is drawn only up to
    display row 30. *)

(** The column at which row [m] of a sprite drawn from column [x0] starts. *)
Definition sprite_column (x0 m : Z) : Z := Z.min (x0 + 8 * m) 63.

(** Row [m] of an [N]-row sprite drawn from display row [y0] is reached. *)
Definition drawn (N y0 m : Z) : Prop := 0 <= m < N ∧ (m = 0 ∨ y0 + m <= 30).

(** The cell [(yy, xx)] is one the loops write or test. *)
Definition visited (N x0 y0 yy xx : Z) : Prop :=
  ∃ m, drawn N y0 m ∧ yy = y0 + m ∧
       sprite_column x0 m <= xx < sprite_column x0 m + 8 ∧ xx <= 63.

(** A cell of the row the inner loop is about to draw, of [n] cells from
    column [x], is on where the sprite byte has a 1: the test of the source,
    [bit == 1 && chip.display[y][x] == 1], succeeds there. *)
Definition row_collision (n sb x y : Z) (d : list (list Z)) : Prop :=
  ∃ k, 0 <= k < n ∧ x + k <= 63 ∧ Z.testbit sb (n - 1 - k) = true ∧
       pixel d y (x + k) = Some 1.

(** The same for a whole sprite of [N] bytes at [mem[I ..]]: some visited
    cell is on where its sprite bit, most significant first, is 1. *)
Definition collision (N x0 y0 I : Z) (mem : list Z) (d : list (list Z)) : Prop :=
  ∃ m sb, drawn N y0 m ∧ index mem (u16 (I + m)) = Some sb ∧
          row_collision 8 sb (sprite_column x0 m) (y0 + m) d.

(** The state about to draw a three-row sprite (81 00 FF at 0x208) at
    column 58, row 29: V0 = 58, V1 = 29, I = 0x208. *)
Definition sprite_rom : list Z :=
  [0x60; 0x3A; 0x61; 0x1D; 0xA2; 0x08; 0xD0; 0x13; 0x81; 0x00; 0xFF].

Definition chip_before_sprite : Chip8 := ran sprite_rom 3.

(** The state about to draw two rows from I = 0xFFF, the last byte of the
    memory. *)
Definition chip_sprite_past_memory : Chip8 := ran [0xAF; 0xFF; 0xD0; 0x02] 1.

(** Every cell of the display is 0 or 1. *)
Definition display_bits (d : list (list Z)) : Prop :=
  Forall (Forall (λ v, v = 0 ∨ v = 1)) d.

(** * Properties *)

(** Closes a decidable goal without variables by evaluation. *)
Ltac decide_closed :=
  match goal with |- ?P => apply (bool_decide_unpack P) end; vm_compute; exact I.

Lemma NewChip_returns : NewChip = Some initial_chip.
Proof. vm_compute. reflexivity. Qed.

Lemma wf_check_wf c : wf_check c → wf c.
Proof. unfold wf_check. intros H. split; tauto. Defined.

Lemma wf_decide c : bool_decide (wf_check c) = true → wf c.
Proof. intros H. apply wf_check_wf. exact (bool_decide_eq_true_1 _ H). Defined.

Lemma initial_chip_wf : wf initial_chip.
Proof. apply wf_decide. vm_compute. reflexivity. Qed.

(** ** Decoding: [GetNibbles] as division and remainder *)

Section Decode.

(** A mask [0..0 1..1 0..0] of [n] ones above [bits] zeros selects the
    digit [(val / 2^bits) mod 2^n]. *)
Lemma GetNibbles_field (val bits n : Z) :
  0 <= bits → 0 <= n →
  GetNibbles val bits (Z.shiftl (Z.ones n) bits) = (val / 2 ^ bits) mod 2 ^ n.
Proof.
  intros Hb Hn. unfold GetNibbles.
  rewrite Z.shiftr_land, Z.shiftr_shiftl_l, Z.sub_diag, Z.shiftl_0_r by lia.
  rewrite Z.land_ones, Z.shiftr_div_pow2 by lia. reflexivity.
Qed.

Lemma nibble_1 op : GetNibbles op 12 0xF000 = (op / 4096) mod 16.
Proof. exact (GetNibbles_field op 12 4 ltac:(lia) ltac:(lia)). Qed.

Lemma nibble_X op : GetNibbles op 8 0x0F00 = (op / 256) mod 16.
Proof. exact (GetNibbles_field op 8 4 ltac:(lia) ltac:(lia)). Qed.

Lemma nibble_Y op : GetNibbles op 4 0x00F0 = (op / 16) mod 16.
Proof. exact (GetNibbles_field op 4 4 ltac:(lia) ltac:(lia)). Qed.

Lemma nibble_N op : GetNibbles op 0 0x000F = op mod 16.
Proof.
  transitivity ((op / 2 ^ 0) mod 2 ^ 4);
    [exact (GetNibbles_field op 0 4 ltac:(lia) ltac:(lia))|].
  change (2 ^ 0) with 1. rewrite Z.div_1_r. reflexivity.
Qed.

Lemma nibble_NN op : GetNibbles op 0 0x00FF = op mod 256.
Proof.
  transitivity ((op / 2 ^ 0) mod 2 ^ 8);
    [exact (GetNibbles_field op 0 8 ltac:(lia) ltac:(lia))|].
  change (2 ^ 0) with 1. rewrite Z.div_1_r. reflexivity.
Qed.

Lemma nibble_NNN op : GetNibbles op 0 0x0FFF = op mod 4096.
Proof.
  transitivity ((op / 2 ^ 0) mod 2 ^ 12);
    [exact (GetNibbles_field op 0 12 ltac:(lia) ltac:(lia))|].
  change (2 ^ 0) with 1. rewrite Z.div_1_r. reflexivity.
Qed.

(** The digits of [0xCXNN]. *)
Lemma decode_CXNN (C X NN : Z) :
  0 <= C < 16 → 0 <= X < 16 → 0 <= NN < 256 →
  let op := 0x1000 * C + 0x100 * X + NN in
  GetNibbles op 12 0xF000 = C ∧ GetNibbles op 8 0x0F00 = X ∧
  GetNibbles op 0 0x00FF = NN.
Proof.
  intros HC HX HNN op. rewrite nibble_1, nibble_X, nibble_NN.
  subst op. repeat split.
  - replace (4096 * C + 256 * X + NN) with (C * 4096 + (256 * X + NN)) by lia.
    rewrite Z.div_add_l by lia. rewrite (Z.div_small (256 * X + NN)) by lia.
    rewrite Z.add_0_r. apply Z.mod_small. lia.
  - replace (4096 * C + 256 * X + NN) with ((C * 16 + X) * 256 + NN) by lia.
    rewrite Z.div_add_l by lia. rewrite (Z.div_small NN) by lia.
    rewrite Z.add_0_r, Z.add_comm, Z.mod_add by lia. apply Z.mod_small. lia.
  - replace (4096 * C + 256 * X + NN) with (NN + (C * 16 + X) * 256) by lia.
    rewrite Z.mod_add by lia. apply Z.mod_small. lia.
Qed.

Lemma nibble_1_range op : 0 <= GetNibbles op 12 0xF000 < 16.
Proof. rewrite nibble_1. apply Z.mod_pos_bound. lia. Qed.

Lemma nibble_X_range op : 0 <= GetNibbles op 8 0x0F00 < 16.
Proof. rewrite nibble_X. apply Z.mod_pos_bound. lia. Qed.

Lemma nibble_Y_range op : 0 <= GetNibbles op 4 0x00F0 < 16.
Proof. rewrite nibble_Y. apply Z.mod_pos_bound. lia. Qed.

Lemma nibble_NNN_range op : 0 <= GetNibbles op 0 0x0FFF < 4096.
Proof. rewrite nibble_NNN. apply Z.mod_pos_bound. lia. Qed.

End Decode.

(** ** Bounds-checked array access *)

Section Arrays.
Context {A : Type}.
Implicit Types (a : list A) (i j : Z) (v : A).

Lemma index_Some_lt a i v : index a i = Some v → (Z.to_nat i < length a)%nat.
Proof. unfold index. apply lookup_lt_Some. Qed.

Lemma index_is_Some a i : 0 <= i < Z.of_nat (length a) → is_Some (index a i).
Proof. intros H. unfold index. apply lookup_lt_is_Some. lia. Qed.

Lemma store_in_range a i v :
  0 <= i < Z.of_nat (length a) → store a i v = Some (<[Z.to_nat i := v]> a).
Proof. intros H. unfold store. rewrite decide_True by lia. reflexivity. Qed.

Lemma store_Some a i v a' :
  store a i v = Some a' →
  (Z.to_nat i < length a)%nat ∧ a' = <[Z.to_nat i := v]> a.
Proof. unfold store. case_decide; intros [= <-]; auto. Qed.

Lemma store_length a i v a' : store a i v = Some a' → length a' = length a.
Proof. intros [_ ->]%store_Some. apply length_insert. Qed.

Lemma store_Forall (P : A → Prop) a i v a' :
  Forall P a → P v → store a i v = Some a' → Forall P a'.
Proof. intros Ha Hv [_ ->]%store_Some. by apply Forall_insert. Qed.

Lemma index_store_eq a i v a' : store a i v = Some a' → index a' i = Some v.
Proof. intros [Hlt ->]%store_Some. unfold index. by apply list_lookup_insert_eq. Qed.

Lemma index_store_ne a i j v a' :
  0 <= i → 0 <= j → i ≠ j → store a i v = Some a' → index a' j = index a j.
Proof.
  intros Hi Hj Hne [_ ->]%store_Some. unfold index.
  apply list_lookup_insert_ne. lia.
Qed.

End Arrays.

(** ** The fetch *)

(** A fetch that does not panic read both bytes inside the memory, so the
    program counter was at most 4094. *)
Lemma fetch_program_counter c op :
  wf c → fetch c = Some op → 0 <= program_counter c <= 4094.
Proof.
  intros Hwf Hf. unfold fetch in Hf.
  destruct (index (memory c) (program_counter c)) as [hi|] eqn:Hhi; [|done].
  destruct (index (memory c) (u16 (program_counter c + 1))) as [lo|] eqn:Hlo; [|done].
  apply index_Some_lt in Hhi, Hlo.
  rewrite (proj1 (wf_memory c Hwf)) in Hhi, Hlo.
  pose proof (wf_program_counter c Hwf) as [H0 _].
  assert (program_counter c < 4096) as Hpc by lia.
  unfold u16 in Hlo. rewrite Z.mod_small in Hlo by lia. lia.
Qed.

Lemma fetch_advance c op :
  wf c → fetch c = Some op → u16 (program_counter c + 2) = program_counter c + 2.
Proof.
  intros Hwf Hf. pose proof (fetch_program_counter c op Hwf Hf).
  unfold u16. apply Z.mod_small. lia.
Qed.

(** ** The branches of the switch *)

Lemma nibble_cases n :
  0 <= n < 16 →
  n = 0 ∨ n = 1 ∨ n = 2 ∨ n = 3 ∨ n = 4 ∨ n = 5 ∨ n = 6 ∨ n = 7 ∨
  n = 8 ∨ n = 9 ∨ n = 10 ∨ n = 11 ∨ n = 12 ∨ n = 13 ∨ n = 14 ∨ n = 15.
Proof. lia. Qed.

Lemma execute_default chip opcode :
  GetNibbles opcode 12 0xF000 ∉ implemented →
  execute chip opcode = Some (chip, [msg_invalid_opcode]).
Proof.
  unfold implemented. rewrite !not_elem_of_cons. intros (?&?&?&?&?&?&_).
  unfold execute. pose proof (nibble_1_range opcode) as Hr.
  destruct (nibble_cases _ Hr) as
    [E|[E|[E|[E|[E|[E|[E|[E|[E|[E|[E|[E|[E|[E|[E|E]]]]]]]]]]]]]]];
    rewrite E in *; try reflexivity; lia.
Qed.

Lemma execute_0 chip opcode :
  GetNibbles opcode 12 0xF000 = 0 →
  execute chip opcode =
    Some (set_program_counter (u16 (program_counter chip + 2))
            (set_display zero_display chip), []).
Proof. intros E. unfold execute. rewrite E. reflexivity. Qed.

Lemma execute_1 chip opcode :
  GetNibbles opcode 12 0xF000 = 1 →
  execute chip opcode =
    Some (set_program_counter (u16 (GetNibbles opcode 0 0x0FFF)) chip, []).
Proof. intros E. unfold execute. rewrite E. reflexivity. Qed.

Lemma execute_6 chip opcode :
  GetNibbles opcode 12 0xF000 = 6 →
  execute chip opcode =
    regs ← store (registers chip) (GetNibbles opcode 8 0x0F00)
                 (u8 (GetNibbles opcode 0 0x00FF));
    Some (set_program_counter (u16 (program_counter chip + 2))
            (set_registers regs chip), []).
Proof. intros E. unfold execute. rewrite E. reflexivity. Qed.

Lemma execute_7 chip opcode :
  GetNibbles opcode 12 0xF000 = 7 →
  execute chip opcode =
    old ← index (registers chip) (GetNibbles opcode 8 0x0F00);
    regs ← store (registers chip) (GetNibbles opcode 8 0x0F00)
                 (u8 (old + u8 (GetNibbles opcode 0 0x00FF)));
    Some (set_program_counter (u16 (program_counter chip + 2))
            (set_registers regs chip), []).
Proof. intros E. unfold execute. rewrite E. reflexivity. Qed.

Lemma execute_10 chip opcode :
  GetNibbles opcode 12 0xF000 = 10 →
  execute chip opcode =
    Some (set_program_counter (u16 (program_counter chip + 2))
            (set_index_register (u16 (GetNibbles opcode 0 0x0FFF)) chip), []).
Proof. intros E. unfold execute. rewrite E. reflexivity. Qed.

Lemma execute_13 chip opcode :
  GetNibbles opcode 12 0xF000 = 13 →
  execute chip opcode =
    x ← index (registers chip) (GetNibbles opcode 8 0x0F00);
    y ← index (registers chip) (GetNibbles opcode 4 0x00F0);
    regs ← store (registers chip) 15 0;
    '(disp, regs) ← draw_rows (Z.to_nat (GetNibbles opcode 0 0x000F)) 0
                       (Z.land x 63) (Z.land y 31) (display chip) regs
                       (memory chip) (index_register chip);
    Some (set_program_counter (u16 (program_counter chip + 2))
            (set_display disp (set_registers regs chip)), []).
Proof. intros E. unfold execute. rewrite E. reflexivity. Qed.

(** ** Every operation keeps the state a value of the Go type *)

Lemma u8_is_u8 z : is_u8 (u8 z).
Proof. apply Z.mod_pos_bound. lia. Qed.

Lemma u16_is_u16 z : is_u16 (u16 z).
Proof. apply Z.mod_pos_bound. lia. Qed.

Lemma store_wf_regs r i v r' :
  wf_regs r → is_u8 v → store r i v = Some r' → wf_regs r'.
Proof.
  intros [Hl Hf] Hv Hs. split.
  - by rewrite (store_length _ _ _ _ Hs).
  - by eapply store_Forall.
Qed.

Lemma store2_wf_display d y x v d' :
  wf_display d → is_int v → store2 d y x v = Some d' → wf_display d'.
Proof.
  intros [Hl Hf] Hv Hs. unfold store2 in Hs.
  destruct (index d y) as [row|] eqn:Hrow; [|done]. simpl in Hs.
  destruct (store row x v) as [row'|] eqn:Hrow'; [|done]. simpl in Hs.
  assert (wf_row row) as [Hrl Hrf].
  { unfold index in Hrow. by eapply (Forall_lookup_1 _ _ _ _ Hf). }
  split.
  - by rewrite (store_length _ _ _ _ Hs).
  - eapply store_Forall; [exact Hf| |exact Hs]. split.
    + by rewrite (store_length _ _ _ _ Hrow').
    + by eapply store_Forall.
Qed.

Lemma draw_row_wf n : ∀ sb x y d r d' r' x',
  wf_display d → wf_regs r →
  draw_row n sb x y d r = Some (d', r', x') → wf_display d' ∧ wf_regs r'.
Proof.
  induction n as [|j IH]; intros sb x y d r d' r' x' Hd Hr H; simpl in H.
  - by injection H as <- <- <-.
  - match type of H with (?m ≫= _) = _ => destruct m as [collide|] eqn:Hc end;
      [|done].
    simpl in H. destruct collide.
    + destruct (store r 15 1) as [r1|] eqn:Hr1; [|done]. simpl in H.
      assert (wf_regs r1) by (eapply store_wf_regs; [exact Hr| |exact Hr1]; by compute).
      destruct (x >? 62); [by injection H as <- <- <-|]. by eapply IH.
    + destruct (store2 d y x 1) as [d1|] eqn:Hd1; [|done]. simpl in H.
      assert (wf_display d1) by (eapply store2_wf_display; [exact Hd| |exact Hd1]; by compute).
      destruct (x >? 62); [by injection H as <- <- <-|]. by eapply IH.
Qed.

Lemma draw_rows_wf n : ∀ i x y d r mem I d' r',
  wf_display d → wf_regs r →
  draw_rows n i x y d r mem I = Some (d', r') → wf_display d' ∧ wf_regs r'.
Proof.
  induction n as [|n IH]; intros i x y d r mem I d' r' Hd Hr H;
    cbn [draw_rows] in H.
  - by injection H as <- <-.
  - destruct (index mem (u16 (I + u16 i))) as [sb|]; [|done].
    cbn [mbind option_bind] in H.
    destruct (draw_row 8 sb x y d r) as [[[d1 r1] x1]|] eqn:Hrow; [|done].
    apply draw_row_wf in Hrow as [Hd1 Hr1]; [|done..].
    cbn [mbind option_bind] in H.
    destruct (u8 (y + 1) >? 30); [by injection H as <- <-|]. by eapply IH.
Qed.

Lemma implemented_cases n :
  n ∈ implemented → n = 0 ∨ n = 1 ∨ n = 6 ∨ n = 7 ∨ n = 10 ∨ n = 13.
Proof.
  unfold implemented. rewrite !elem_of_cons, elem_of_nil. tauto.
Qed.

Lemma zero_display_wf : wf_display zero_display.
Proof.
  split; [reflexivity|]. apply Forall_replicate. split; [reflexivity|].
  apply Forall_replicate. by compute.
Qed.

Lemma execute_wf chip opcode chip' out :
  wf chip → execute chip opcode = Some (chip', out) → wf chip'.
Proof.
  intros [Hr Hpc HI Hs Hdt Hst Hm Hd Hk] H.
  destruct (decide (GetNibbles opcode 12 0xF000 ∈ implemented)) as [Hin|Hout].
  - apply implemented_cases in Hin as [E|[E|[E|[E|[E|E]]]]].
    + rewrite (execute_0 _ _ E) in H. injection H as <- <-.
      split; simpl; auto using zero_display_wf, u16_is_u16.
    + rewrite (execute_1 _ _ E) in H. injection H as <- <-.
      split; simpl; auto using u16_is_u16.
    + rewrite (execute_6 _ _ E) in H.
      destruct (store (registers chip) _ _) as [regs|] eqn:Hregs; [|done].
      injection H as <- <-.
      split; simpl; auto using u16_is_u16.
      eapply store_wf_regs; [exact Hr|apply u8_is_u8|exact Hregs].
    + rewrite (execute_7 _ _ E) in H.
      destruct (index (registers chip) _) as [old|]; [|done].
      cbn [mbind option_bind] in H.
      destruct (store (registers chip) _ _) as [regs|] eqn:Hregs; [|done].
      injection H as <- <-.
      split; simpl; auto using u16_is_u16.
      eapply store_wf_regs; [exact Hr|apply u8_is_u8|exact Hregs].
    + rewrite (execute_10 _ _ E) in H. injection H as <- <-.
      split; simpl; auto using u16_is_u16.
    + rewrite (execute_13 _ _ E) in H.
      destruct (index (registers chip) (GetNibbles opcode 8 _)) as [x|]; [|done].
      cbn [mbind option_bind] in H.
      destruct (index (registers chip) (GetNibbles opcode 4 _)) as [y|]; [|done].
      cbn [mbind option_bind] in H.
      destruct (store (registers chip) 15 0) as [regs|] eqn:Hregs; [|done].
      cbn [mbind option_bind] in H.
      destruct (draw_rows _ _ _ _ _ _ _ _) as [[disp regs']|] eqn:Hdraw; [|done].
      injection H as <- <-.
      apply draw_rows_wf in Hdraw as [Hd' Hr']; [|done|].
      * split; simpl; auto using u16_is_u16.
      * eapply store_wf_regs; [exact Hr| |exact Hregs]. by compute.
  - rewrite (execute_default _ _ Hout) in H. injection H as <- <-. by split.
Qed.

Lemma Cycle_wf chip chip' out : wf chip → Cycle chip = Some (chip', out) → wf chip'.
Proof.
  intros Hwf H. unfold Cycle in H.
  destruct (fetch chip) as [opcode|]; [|done]. by eapply execute_wf.
Qed.

(** The copy loop of [LoadROM] stays inside the memory when the size check
    passed, and writes exactly the cells [mem_value .. mem_value + len). *)
Lemma load_bytes_returns data : ∀ mem_value mem,
  0 <= mem_value → mem_value + Z.of_nat (length data) <= Z.of_nat (length mem) →
  Z.of_nat (length mem) < 65536 →
  ∃ mem', load_bytes data mem_value mem = Some mem' ∧
          length mem' = length mem ∧
          (∀ k, (k < Z.to_nat mem_value)%nat → mem' !! k = mem !! k) ∧
          (∀ k, (k < length data)%nat →
                mem' !! (Z.to_nat mem_value + k)%nat = data !! k) ∧
          (∀ k, (Z.to_nat mem_value + length data <= k)%nat → mem' !! k = mem !! k).
Proof.
  induction data as [|b rest IH]; intros mem_value mem H0 Hfit Hmax.
  - exists mem. simpl. repeat split; auto. intros k Hk. simpl in Hk. lia.
  - cbn [length] in Hfit. cbn [load_bytes].
    rewrite store_in_range by lia. cbn [mbind option_bind].
    assert (u16 (mem_value + 1) = mem_value + 1) as ->
      by (unfold u16; apply Z.mod_small; lia).
    destruct (IH (mem_value + 1) (<[Z.to_nat mem_value := b]> mem))
      as (mem' & -> & Hlen & Hlow & Hmid & Hhigh);
      [lia|rewrite length_insert; lia|rewrite length_insert; lia|].
    rewrite length_insert in Hlen.
    exists mem'. repeat split; auto.
    + intros k Hk. rewrite Hlow by lia. apply list_lookup_insert_ne. lia.
    + intros [|k] Hk.
      * rewrite Hlow by lia. rewrite Nat.add_0_r. simpl.
        apply list_lookup_insert_eq. lia.
      * simpl in Hk. specialize (Hmid k ltac:(lia)).
        replace (Z.to_nat mem_value + S k)%nat with (Z.to_nat (mem_value + 1) + k)%nat
          by lia.
        exact Hmid.
    + intros k Hk. simpl in Hk. rewrite Hhigh by lia.
      apply list_lookup_insert_ne. lia.
Qed.

Lemma load_bytes_Forall (P : Z → Prop) data : ∀ mem_value mem mem',
  Forall P data → Forall P mem →
  load_bytes data mem_value mem = Some mem' → Forall P mem'.
Proof.
  induction data as [|b rest IH]; intros mem_value mem mem' Hd Hm H.
  - by injection H as <-.
  - cbn [load_bytes] in H. apply Forall_cons in Hd as [Hb Hrest].
    destruct (store mem mem_value b) as [mem1|] eqn:Hs; [|done].
    cbn [mbind option_bind] in H.
    eapply (IH _ mem1); [exact Hrest| |exact H]. by eapply store_Forall.
Qed.

(** ** [LoadROM]: when it fails and what it writes *)

Section LoadROM_facts.
Variable chip : Chip8.
Hypothesis Hwf : wf chip.
Variable data : list Z.

Let len := Z.of_nat (length data).

(** The size check of the source rejects [pc + len >= 4096]. *)
Lemma LoadROM_too_big :
  4096 <= program_counter chip + len →
  LoadROM chip (Some data) = Some (chip, false, [msg_too_big]).
Proof.
  intros H. unfold LoadROM. rewrite (proj1 (wf_memory _ Hwf)).
  destruct (Z.geb_spec (program_counter chip + Z.of_nat (length data))
              (Z.of_nat 4096)) as [_|Hlt]; [reflexivity|]. subst len. lia.
Qed.

(** Otherwise the copy loop runs to its end without a panic and writes the
    file at [pc .. pc + len), leaving every other byte as it was. *)
Lemma LoadROM_fits :
  program_counter chip + len < 4096 →
  ∃ mem', LoadROM chip (Some data) = Some (set_memory mem' chip, true, []) ∧
          length mem' = 4096%nat ∧
          (∀ k, (k < Z.to_nat (program_counter chip))%nat →
                mem' !! k = memory chip !! k) ∧
          (∀ k, (k < length data)%nat →
                mem' !! (Z.to_nat (program_counter chip) + k)%nat = data !! k) ∧
          (∀ k, (Z.to_nat (program_counter chip) + length data <= k)%nat →
                mem' !! k = memory chip !! k).
Proof.
  intros H. unfold LoadROM.
  pose proof (proj1 (wf_memory _ Hwf)) as Hlen.
  pose proof (wf_program_counter _ Hwf) as [Hpc _].
  rewrite Hlen.
  destruct (Z.geb_spec (program_counter chip + Z.of_nat (length data))
              (Z.of_nat 4096)) as [Hge|_]; [subst len; lia|].
  destruct (load_bytes_returns data (program_counter chip) (memory chip))
    as (mem' & -> & Hl & Hlow & Hmid & Hhigh);
    [lia|subst len; lia|lia|].
  exists mem'. rewrite Hl, Hlen. auto.
Qed.

(** [LoadROM] on a file that was read always returns; it returns [false]
    exactly when [pc + len >= 4096], and then the state is unchanged. *)
Lemma LoadROM_result :
  ∃ chip' ok out, LoadROM chip (Some data) = Some (chip', ok, out) ∧
    (ok = false ↔ 4096 <= program_counter chip + len) ∧
    (ok = false → chip' = chip).
Proof.
  destruct (Z_lt_le_dec (program_counter chip + len) 4096) as [Hlt|Hge].
  - destruct (LoadROM_fits Hlt) as (mem' & -> & _).
    eexists _, _, _. split; [reflexivity|]. split; [split|]; [done|lia|done].
  - rewrite (LoadROM_too_big Hge).
    eexists _, _, _. split; [reflexivity|]. split; [split|]; done.
Qed.

End LoadROM_facts.

Lemma LoadROM_wf chip file chip' ok out :
  wf chip → file_bytes file → LoadROM chip file = Some (chip', ok, out) → wf chip'.
Proof.
  intros Hwf Hb H. destruct file as [data|]; [|by simpl in H; simplify_eq].
  unfold LoadROM in H.
  destruct (Z.geb_spec (program_counter chip + Z.of_nat (length data))
              (Z.of_nat (length (memory chip)))) as [Hge|Hlt];
    [by simplify_eq|].
  destruct (load_bytes data _ _) as [mem|] eqn:Hl; [|done].
  cbn [mbind option_bind] in H. injection H as <- <- <-.
  destruct Hwf as [Hr Hpc HI Hs Hdt Hst [Hml Hm] Hd Hk].
  destruct (load_bytes_returns data (program_counter chip) (memory chip))
    as (mem' & Hl' & Hlen & _); [apply Hpc|lia|lia|].
  split; simpl; auto. split.
  - congruence.
  - eapply load_bytes_Forall; [exact Hb|exact Hm|exact Hl].
Qed.

Lemma reachable_wf chip : reachable chip → wf chip.
Proof.
  induction 1 as [chip H|chip file chip' ok out _ IH Hb H|chip chip' out _ IH H].
  - rewrite NewChip_returns in H. injection H as <-. apply initial_chip_wf.
  - by eapply LoadROM_wf.
  - by eapply Cycle_wf.
Qed.

Lemma Cycle_fetch chip opcode :
  fetch chip = Some opcode → Cycle chip = execute chip opcode.
Proof. intros H. unfold Cycle. rewrite H. reflexivity. Qed.

(** ** 6XNN and 7XNN *)

(** C9. For every register index X and every byte NN, a cycle that executes
    6XNN returns, and reading register X afterwards yields NN. *)
Theorem Cycle_6XNN_then_read chip X NN :
  wf chip → 0 <= X < 16 → 0 <= NN < 256 →
  fetch chip = Some (0x6000 + 0x100 * X + NN) →
  ∃ chip', Cycle chip = Some (chip', []) ∧ index (registers chip') X = Some NN.
Proof.
  intros Hwf HX HNN Hf. rewrite (Cycle_fetch _ _ Hf).
  destruct (decode_CXNN 6 X NN ltac:(lia) HX HNN) as (E1 & EX & ENN).
  change (0x1000 * 6) with 0x6000 in E1, EX, ENN.
  rewrite (execute_6 _ _ E1), EX, ENN.
  assert (u8 NN = NN) as -> by (apply Z.mod_small; lia).
  pose proof (proj1 (wf_registers _ Hwf)) as Hlen.
  rewrite store_in_range by lia. cbn [mbind option_bind].
  eexists. split; [reflexivity|]. simpl.
  unfold index. apply list_lookup_insert_eq. lia.
Qed.

Lemma Cycle_6XNN_then_read_witness :
  wf (booted [0x63; 0x2A]) ∧
  fetch (booted [0x63; 0x2A]) = Some (0x6000 + 0x100 * 3 + 0x2A) ∧
  ∃ chip', Cycle (booted [0x63; 0x2A]) = Some (chip', []) ∧
           index (registers chip') 3 = Some 0x2A.
Proof.
  split; [apply wf_decide; vm_compute; reflexivity|].
  split; [vm_compute; reflexivity|].
  apply (Cycle_6XNN_then_read (booted [0x63; 0x2A]) 3 0x2A);
    [apply wf_decide; vm_compute; reflexivity|lia|lia|vm_compute; reflexivity].
Defined.

(** C8. For every register index X, every old value of register X and every
    byte NN, a cycle that executes 7XNN sets register X to (old + NN) mod 256,
    leaves VF as it was when X is not 15, and advances the program counter
    by 2. *)
Theorem Cycle_7XNN_adds_mod_256 chip X NN old :
  wf chip → 0 <= X < 16 → 0 <= NN < 256 →
  fetch chip = Some (0x7000 + 0x100 * X + NN) →
  index (registers chip) X = Some old →
  ∃ chip', Cycle chip = Some (chip', []) ∧
           index (registers chip') X = Some ((old + NN) mod 256) ∧
           (X ≠ 15 → index (registers chip') 15 = index (registers chip) 15) ∧
           program_counter chip' = program_counter chip + 2.
Proof.
  intros Hwf HX HNN Hf Hold. rewrite (Cycle_fetch _ _ Hf).
  destruct (decode_CXNN 7 X NN ltac:(lia) HX HNN) as (E1 & EX & ENN).
  change (0x1000 * 7) with 0x7000 in E1, EX, ENN.
  rewrite (execute_7 _ _ E1), EX, ENN, Hold. cbn [mbind option_bind].
  assert (u8 NN = NN) as -> by (apply Z.mod_small; lia).
  pose proof (proj1 (wf_registers _ Hwf)) as Hlen.
  rewrite store_in_range by lia. cbn [mbind option_bind].
  eexists. split; [reflexivity|].
  cbn [registers program_counter set_registers set_program_counter].
  repeat split.
  - unfold index. apply list_lookup_insert_eq. lia.
  - intros Hne. unfold index. apply list_lookup_insert_ne. lia.
  - exact (fetch_advance _ _ Hwf Hf).
Qed.

Lemma Cycle_7XNN_adds_mod_256_witness :
  wf chip_7XNN ∧ fetch chip_7XNN = Some (0x7000 + 0x100 * 3 + 0x2A) ∧
  index (registers chip_7XNN) 3 = Some 0xF0 ∧
  ∃ chip', Cycle chip_7XNN = Some (chip', []) ∧
           index (registers chip') 3 = Some ((0xF0 + 0x2A) mod 256) ∧
           (3 ≠ 15 → index (registers chip') 15 = index (registers chip_7XNN) 15) ∧
           program_counter chip' = program_counter chip_7XNN + 2.
Proof.
  split; [apply wf_decide; vm_compute; reflexivity|].
  split; [vm_compute; reflexivity|].
  split; [vm_compute; reflexivity|].
  apply (Cycle_7XNN_adds_mod_256 chip_7XNN 3 0x2A 0xF0);
    [apply wf_decide; vm_compute; reflexivity|lia|lia|vm_compute; reflexivity
    |vm_compute; reflexivity].
Defined.

(** ** Opcode classes outside the switch *)

Lemma Cycle_default chip opcode :
  fetch chip = Some opcode → GetNibbles opcode 12 0xF000 ∉ implemented →
  Cycle chip = Some (chip, [msg_invalid_opcode]).
Proof. intros Hf Hn. rewrite (Cycle_fetch _ _ Hf). by apply execute_default. Qed.

(** C10. When the fetched instruction's top nibble is none of 0x0, 0x1, 0x6,
    0x7, 0xA, 0xD, one call of [Cycle] returns the state it was given, every
    field unchanged and the program counter among them, so the next cycle
    fetches the same instruction. *)
Theorem Cycle_unimplemented_frame chip opcode :
  fetch chip = Some opcode → GetNibbles opcode 12 0xF000 ∉ implemented →
  ∃ chip' out, Cycle chip = Some (chip', out) ∧
    registers chip' = registers chip ∧
    program_counter chip' = program_counter chip ∧
    index_register chip' = index_register chip ∧
    stack chip' = stack chip ∧
    delay_timer chip' = delay_timer chip ∧
    sound_timer chip' = sound_timer chip ∧
    memory chip' = memory chip ∧
    display chip' = display chip ∧
    keypad chip' = keypad chip ∧
    fetch chip' = Some opcode.
Proof.
  intros Hf Hn. exists chip, [msg_invalid_opcode].
  split; [exact (Cycle_default _ _ Hf Hn)|]. by repeat split.
Qed.

Lemma Cycle_unimplemented_frame_witness :
  fetch (booted [0x80; 0x14]) = Some 0x8014 ∧
  (GetNibbles 0x8014 12 0xF000 ∉ implemented) ∧
  ∃ chip' out, Cycle (booted [0x80; 0x14]) = Some (chip', out) ∧
    registers chip' = registers (booted [0x80; 0x14]) ∧
    program_counter chip' = program_counter (booted [0x80; 0x14]) ∧
    index_register chip' = index_register (booted [0x80; 0x14]) ∧
    stack chip' = stack (booted [0x80; 0x14]) ∧
    delay_timer chip' = delay_timer (booted [0x80; 0x14]) ∧
    sound_timer chip' = sound_timer (booted [0x80; 0x14]) ∧
    memory chip' = memory (booted [0x80; 0x14]) ∧
    display chip' = display (booted [0x80; 0x14]) ∧
    keypad chip' = keypad (booted [0x80; 0x14]) ∧
    fetch chip' = Some 0x8014.
Proof.
  split; [vm_compute; reflexivity|].
  split; [decide_closed|].
  apply (Cycle_unimplemented_frame (booted [0x80; 0x14]) 0x8014);
    [vm_compute; reflexivity|decide_closed].
Defined.

(** C2, as the claim states it, fails on the class-8 instruction 0x8014 at
    0x200: the cycle is no fault but returns, with the state unchanged and
    the fixed text printed, and so does the cycle after it. *)
Lemma Cycle_invalid_opcode_is_no_fault :
  fetch (booted [0x80; 0x14]) = Some 0x8014 ∧
  GetNibbles 0x8014 12 0xF000 = 8 ∧
  Cycle (booted [0x80; 0x14]) ≠ None ∧
  Cycle (booted [0x80; 0x14]) = Some (booted [0x80; 0x14], [msg_invalid_opcode]) ∧
  Cycles 2 (booted [0x80; 0x14]) =
    Some (booted [0x80; 0x14], [msg_invalid_opcode; msg_invalid_opcode]).
Proof.
  repeat split; try (vm_compute; reflexivity). vm_compute. discriminate.
Qed.

(** C2, as the code has it. A cycle on an instruction of an unrecognized
    class is no fault: it prints the fixed text "Invalid Opcode", which names
    neither the instruction nor the program counter, and returns the state
    unchanged; execution continues, and [n] cycles in a row print the text
    [n] times and are still in the same state. *)
Theorem Cycles_invalid_opcode_continue chip opcode n :
  fetch chip = Some opcode → GetNibbles opcode 12 0xF000 ∉ implemented →
  Cycles n chip = Some (chip, replicate n msg_invalid_opcode).
Proof.
  intros Hf Hn. induction n as [|n IH]; [reflexivity|].
  cbn [Cycles]. rewrite (Cycle_default _ _ Hf Hn). cbn [mbind option_bind].
  rewrite IH. reflexivity.
Qed.

Lemma Cycles_invalid_opcode_continue_witness :
  fetch (booted [0x2A; 0xBC]) = Some 0x2ABC ∧
  (GetNibbles 0x2ABC 12 0xF000 ∉ implemented) ∧
  Cycles 3 (booted [0x2A; 0xBC]) =
    Some (booted [0x2A; 0xBC], replicate 3 msg_invalid_opcode).
Proof.
  split; [vm_compute; reflexivity|].
  split; [decide_closed|].
  apply (Cycles_invalid_opcode_continue (booted [0x2A; 0xBC]) 0x2ABC 3);
    [vm_compute; reflexivity|decide_closed].
Defined.

(** ** What no instruction writes *)

(** No branch of the switch writes the memory, the stack, the timers or the
    keypad; the program counter is left alone, set to the 12-bit operand of a
    jump, or advanced by 2. *)
Lemma execute_frame chip opcode chip' out :
  execute chip opcode = Some (chip', out) →
  memory chip' = memory chip ∧ stack chip' = stack chip ∧
  delay_timer chip' = delay_timer chip ∧ sound_timer chip' = sound_timer chip ∧
  keypad chip' = keypad chip ∧
  (program_counter chip' = program_counter chip ∨
   program_counter chip' = u16 (GetNibbles opcode 0 0x0FFF) ∨
   program_counter chip' = u16 (program_counter chip + 2)).
Proof.
  intros H.
  destruct (decide (GetNibbles opcode 12 0xF000 ∈ implemented)) as [Hin|Hout].
  - apply implemented_cases in Hin as [E|[E|[E|[E|[E|E]]]]].
    + rewrite (execute_0 _ _ E) in H. injection H as <- <-. simpl. auto 10.
    + rewrite (execute_1 _ _ E) in H. injection H as <- <-. simpl. auto 10.
    + rewrite (execute_6 _ _ E) in H.
      destruct (store (registers chip) _ _) as [regs|]; [|done].
      injection H as <- <-. simpl. auto 10.
    + rewrite (execute_7 _ _ E) in H.
      destruct (index (registers chip) _) as [old|]; [|done].
      cbn [mbind option_bind] in H.
      destruct (store (registers chip) _ _) as [regs|]; [|done].
      injection H as <- <-. simpl. auto 10.
    + rewrite (execute_10 _ _ E) in H. injection H as <- <-. simpl. auto 10.
    + rewrite (execute_13 _ _ E) in H.
      destruct (index (registers chip) (GetNibbles opcode 8 _)) as [x|]; [|done].
      cbn [mbind option_bind] in H.
      destruct (index (registers chip) (GetNibbles opcode 4 _)) as [y|]; [|done].
      cbn [mbind option_bind] in H.
      destruct (store (registers chip) 15 0) as [regs|]; [|done].
      cbn [mbind option_bind] in H.
      destruct (draw_rows _ _ _ _ _ _ _ _) as [[disp regs']|]; [|done].
      injection H as <- <-. simpl. auto 10.
  - rewrite (execute_default _ _ Hout) in H. injection H as <- <-. auto 10.
Qed.

Lemma Cycle_memory chip chip' out :
  Cycle chip = Some (chip', out) → memory chip' = memory chip.
Proof.
  unfold Cycle. destruct (fetch chip) as [opcode|]; [|done].
  intros H. by apply execute_frame in H as (? & _).
Qed.

Lemma Cycle_stack chip chip' out :
  Cycle chip = Some (chip', out) → stack chip' = stack chip.
Proof.
  unfold Cycle. destruct (fetch chip) as [opcode|]; [|done].
  intros H. by apply execute_frame in H as (_ & ? & _).
Qed.

(** A cycle that returns leaves the program counter at most one instruction
    past the last one that fits in the memory. *)
Lemma Cycle_program_counter chip chip' out :
  wf chip → Cycle chip = Some (chip', out) → 0 <= program_counter chip' <= 4096.
Proof.
  intros Hwf H. unfold Cycle in H.
  destruct (fetch chip) as [opcode|] eqn:Hf; [|done].
  pose proof (fetch_program_counter _ _ Hwf Hf) as Hpc.
  cbn [mbind option_bind] in H.
  apply execute_frame in H as (_ & _ & _ & _ & _ & [->|[->| ->]]).
  - lia.
  - pose proof (nibble_NNN_range opcode). unfold u16.
    rewrite Z.mod_small; lia.
  - rewrite (fetch_advance _ _ Hwf Hf). lia.
Qed.

(** From 4095 on, the fetch of the next cycle indexes the memory out of range
    and the Go runtime panics. *)
Lemma Cycle_panics_past_memory chip :
  wf chip → 4095 <= program_counter chip → Cycle chip = None.
Proof.
  intros Hwf Hpc. unfold Cycle, fetch, index.
  pose proof (proj1 (wf_memory _ Hwf)) as Hlen.
  pose proof (wf_program_counter _ Hwf) as [_ Hu].
  destruct (decide (program_counter chip = 4095)) as [E|Hne].
  - rewrite E.
    destruct (memory chip !! Z.to_nat 4095) as [hi|]; [|reflexivity].
    cbn [mbind option_bind].
    rewrite (lookup_ge_None_2 (memory chip) (Z.to_nat (u16 (4095 + 1))));
      [reflexivity|]. rewrite Hlen. vm_compute. lia.
  - rewrite (lookup_ge_None_2 (memory chip) (Z.to_nat (program_counter chip)));
      [reflexivity|]. lia.
Qed.

(** ** 00EE *)

(** C3, as the claim states it, fails on the state reached by [NewChip] and
    a load of the bytes 00 EE: no call was made, the stack holds no return
    address, and the cycle is no fault but returns with the program counter
    at 0x202. *)
Lemma Cycle_00EE_empty_stack_no_fault :
  fetch (booted [0x00; 0xEE]) = Some 0x00EE ∧
  stack (booted [0x00; 0xEE]) = replicate 16 0 ∧
  Cycle (booted [0x00; 0xEE]) ≠ None ∧
  ∃ chip', Cycle (booted [0x00; 0xEE]) = Some (chip', []) ∧
           program_counter chip' = 0x202.
Proof.
  split; [vm_compute; reflexivity|].
  split; [vm_compute; reflexivity|].
  split; [vm_compute; discriminate|].
  eexists. split; vm_compute; reflexivity.
Qed.

(** C3, as the code has it. A cycle that executes 0x00EE uses no stack: it
    returns without a fault whatever the stack holds, leaves the stack, the
    registers, the index register and the memory as they were and advances
    the program counter by 2. *)
Theorem Cycle_00EE_ignores_stack chip :
  wf chip → fetch chip = Some 0x00EE →
  ∃ chip', Cycle chip = Some (chip', []) ∧
           stack chip' = stack chip ∧
           program_counter chip' = program_counter chip + 2 ∧
           registers chip' = registers chip ∧
           index_register chip' = index_register chip ∧
           memory chip' = memory chip.
Proof.
  intros Hwf Hf. rewrite (Cycle_fetch _ _ Hf).
  rewrite (execute_0 chip 0x00EE) by reflexivity.
  eexists. split; [reflexivity|].
  cbn [stack program_counter registers index_register memory
       set_program_counter set_display].
  rewrite (fetch_advance _ _ Hwf Hf). by repeat split.
Qed.

Lemma Cycle_00EE_ignores_stack_witness :
  wf (booted [0x00; 0xEE]) ∧ fetch (booted [0x00; 0xEE]) = Some 0x00EE ∧
  ∃ chip', Cycle (booted [0x00; 0xEE]) = Some (chip', []) ∧
           stack chip' = stack (booted [0x00; 0xEE]) ∧
           program_counter chip' = program_counter (booted [0x00; 0xEE]) + 2 ∧
           registers chip' = registers (booted [0x00; 0xEE]) ∧
           index_register chip' = index_register (booted [0x00; 0xEE]) ∧
           memory chip' = memory (booted [0x00; 0xEE]).
Proof.
  split; [apply wf_decide; vm_compute; reflexivity|].
  split; [vm_compute; reflexivity|].
  apply (Cycle_00EE_ignores_stack (booted [0x00; 0xEE]));
    [apply wf_decide; vm_compute; reflexivity|vm_compute; reflexivity].
Defined.

(** ** The four-instruction scenario *)

(** C4, as the claim states it, fails: no run of [NewChip], [LoadROM] of the
    scenario and four cycles ends with V0 = 15, and none ends with the program
    counter 8 past its start. *)
Lemma scenario_not_15_not_8 :
  ¬ ∃ chip0 chip chip4 out,
      NewChip = Some chip0 ∧ LoadROM chip0 (Some scenario) = Some (chip, true, []) ∧
      Cycles 4 chip = Some (chip4, out) ∧
      (index (registers chip4) 0 = Some 15 ∨
       program_counter chip4 = program_counter chip + 8).
Proof.
  intros (chip0 & chip & chip4 & out & H0 & Hl & Hc & H).
  rewrite NewChip_returns in H0. injection H0 as <-.
  vm_compute in Hl. injection Hl as <-.
  vm_compute in Hc. injection Hc as <- <-.
  vm_compute in H. destruct H as [H|H]; discriminate.
Qed.

(** C4, as the code has it. After [NewChip] and [LoadROM] of the scenario at
    0x200, four cycles end with V0 = 5, V1 = 10, VF = 0 and the program
    counter 6 past its start: the fourth instruction, 0x8014, is outside the
    switch, so the fourth cycle prints "Invalid Opcode" and changes nothing.
    The first three cycles print nothing and end in a state [chip3] that
    fetches 0x8014; the fourth cycle returns that same state, every field of
    it; and the final state is the loaded one but for V0, V1 and the program
    counter. *)
Theorem scenario_four_cycles :
  ∃ chip0 chip chip3 chip4,
    NewChip = Some chip0 ∧ LoadROM chip0 (Some scenario) = Some (chip, true, []) ∧
    Cycles 3 chip = Some (chip3, []) ∧
    fetch chip3 = Some 0x8014 ∧
    Cycle chip3 = Some (chip4, [msg_invalid_opcode]) ∧
    chip4 = chip3 ∧
    Cycles 4 chip = Some (chip4, [msg_invalid_opcode]) ∧
    chip4 = set_program_counter (program_counter chip + 6)
              (set_registers [5; 10; 0; 0; 0; 0; 0; 0; 0; 0; 0; 0; 0; 0; 0; 0] chip) ∧
    index (registers chip4) 0 = Some 5 ∧
    index (registers chip4) 1 = Some 10 ∧
    index (registers chip4) 15 = Some 0 ∧
    program_counter chip = 0x200 ∧
    program_counter chip4 = program_counter chip + 6.
Proof.
  exists initial_chip. eexists. eexists. eexists.
  split; [exact NewChip_returns|].
  split; [vm_compute; reflexivity|].
  split; [vm_compute; reflexivity|].
  split; [vm_compute; reflexivity|].
  split; [vm_compute; reflexivity|].
  split; [reflexivity|].
  split; [vm_compute; reflexivity|].
  split; [vm_compute; reflexivity|].
  repeat split.
Qed.

(** ** The program counter after a step *)

(** C5, as the claim states it, fails on the ROM 1F FE: the first cycle jumps
    to 0xFFE, and the second, on the zero word there, returns without a fault
    and leaves the program counter at 4096. *)
Lemma program_counter_reaches_4096 :
  ∃ chip1 chip2,
    boot [0x1F; 0xFE] ≫= Cycle = Some (chip1, []) ∧ reachable chip1 ∧
    program_counter chip1 = 0xFFE ∧
    Cycle chip1 = Some (chip2, []) ∧
    program_counter chip2 = 4096 ∧ ¬ program_counter chip2 < 4096.
Proof.
  eexists. eexists.
  split; [vm_compute; reflexivity|].
  assert (Forall is_u8 [0x1F; 0xFE]) as Hb by decide_closed.
  split.
  { eapply reachable_cycle;
      [eapply (reachable_load initial_chip (Some [0x1F; 0xFE])
                 (booted [0x1F; 0xFE]) true []);
       [apply reachable_new, NewChip_returns|exact Hb|vm_compute; reflexivity]|].
    vm_compute. reflexivity. }
  split; [reflexivity|].
  split; [vm_compute; reflexivity|].
  split; [reflexivity|]. vm_compute. discriminate.
Qed.

(** C5, as the code has it. From every state reachable from the initial
    state, a cycle that returns leaves the program counter at most 4096, not
    below it; and when it leaves it at 4095 or 4096 the machine has not
    faulted yet: it is the next cycle that panics, in its fetch. *)
Theorem reachable_step_program_counter chip chip' out :
  reachable chip → Cycle chip = Some (chip', out) →
  0 <= program_counter chip' <= 4096 ∧
  (4095 <= program_counter chip' → Cycle chip' = None).
Proof.
  intros Hr H. pose proof (reachable_wf _ Hr) as Hwf. split.
  - by eapply Cycle_program_counter.
  - apply Cycle_panics_past_memory. by eapply Cycle_wf.
Qed.

Lemma reachable_step_program_counter_witness :
  reachable (ran [0x1F; 0xFE] 1) ∧
  Cycle (ran [0x1F; 0xFE] 1) = Some (ran [0x1F; 0xFE] 2, []) ∧
  0 <= program_counter (ran [0x1F; 0xFE] 2) <= 4096 ∧
  (4095 <= program_counter (ran [0x1F; 0xFE] 2) →
   Cycle (ran [0x1F; 0xFE] 2) = None).
Proof.
  assert (reachable (ran [0x1F; 0xFE] 1)) as Hr.
  { apply (reachable_cycle (booted [0x1F; 0xFE]) _ []);
      [apply (reachable_load initial_chip (Some [0x1F; 0xFE]) _ true []);
       [apply reachable_new, NewChip_returns
       |change (Forall is_u8 [0x1F; 0xFE]); decide_closed
       |vm_compute; reflexivity]
      |vm_compute; reflexivity]. }
  split; [exact Hr|].
  split; [vm_compute; reflexivity|].
  apply (reachable_step_program_counter (ran [0x1F; 0xFE] 1) _ []);
    [exact Hr|vm_compute; reflexivity].
Defined.

(** ** Loading *)

(** C6, on the code. A ROM of 3584 bytes fills the memory from 0x200 to its
    last byte, 0x200 + 3584 = 4096, yet [LoadROM], called on the state that
    [NewChip] returns, refuses it: it returns [false], prints the too-big text
    and leaves the state as it was. *)
Theorem LoadROM_exact_fit_rejected data :
  length data = 3584%nat →
  program_counter initial_chip + Z.of_nat (length data) = 4096 ∧
  LoadROM initial_chip (Some data) = Some (initial_chip, false, [msg_too_big]).
Proof.
  intros Hlen. split; [rewrite Hlen; reflexivity|].
  apply LoadROM_too_big; [apply initial_chip_wf|]. rewrite Hlen. by compute.
Qed.

Lemma LoadROM_exact_fit_rejected_witness :
  NewChip = Some initial_chip ∧
  length (replicate 3584 0) = 3584%nat ∧
  program_counter initial_chip + Z.of_nat (length (replicate 3584 0)) = 4096 ∧
  LoadROM initial_chip (Some (replicate 3584 0)) =
    Some (initial_chip, false, [msg_too_big]).
Proof.
  split; [exact NewChip_returns|].
  split; [vm_compute; reflexivity|].
  apply (LoadROM_exact_fit_rejected (replicate 3584 0)). vm_compute. reflexivity.
Defined.

(** One byte less is accepted: the check of the source is off by one only at
    the exact fit. *)
Lemma LoadROM_3583_accepted data :
  length data = 3583%nat →
  ∃ mem', LoadROM initial_chip (Some data) =
            Some (set_memory mem' initial_chip, true, []).
Proof.
  intros Hlen.
  destruct (LoadROM_fits initial_chip initial_chip_wf data) as (mem' & H & _).
  - rewrite Hlen. by compute.
  - by exists mem'.
Qed.

(** A load never writes below the program counter; while the program counter
    is at 80 or more, as it is until a jump takes it lower, the fontset is
    kept. *)
Lemma LoadROM_keeps_fontset chip file chip' ok out :
  wf chip → 80 <= program_counter chip →
  LoadROM chip file = Some (chip', ok, out) →
  take 80 (memory chip') = take 80 (memory chip).
Proof.
  intros Hwf Hpc H. destruct file as [data|]; [|by simpl in H; simplify_eq].
  destruct (Z_lt_le_dec (program_counter chip + Z.of_nat (length data)) 4096)
    as [Hlt|Hge].
  - destruct (LoadROM_fits chip Hwf data Hlt) as (mem' & H' & Hl & Hlow & _).
    rewrite H' in H. injection H as <- <- <-. simpl.
    apply list_eq. intros k. destruct (decide (k < 80)%nat) as [Hk|Hk].
    + rewrite !lookup_take_lt by done. apply Hlow. lia.
    + rewrite !lookup_take_ge by lia. reflexivity.
  - rewrite (LoadROM_too_big chip Hwf data Hge) in H. by injection H as <- <- <-.
Qed.

Lemma LoadROM_program_counter chip file chip' ok out :
  LoadROM chip file = Some (chip', ok, out) →
  program_counter chip' = program_counter chip.
Proof.
  intros H. destruct file as [data|]; [|by simpl in H; simplify_eq].
  unfold LoadROM in H. destruct (_ >=? _); [by simplify_eq|].
  destruct (load_bytes _ _ _) as [mem|]; [|done].
  cbn [mbind option_bind] in H. by injection H as <- <- <-.
Qed.

Lemma Cycles_memory n : ∀ chip chip' out,
  Cycles n chip = Some (chip', out) → memory chip' = memory chip.
Proof.
  induction n as [|n IH]; intros chip chip' out H; cbn [Cycles] in H.
  - by injection H as <- <-.
  - destruct (Cycle chip) as [[chip1 out1]|] eqn:Hc; [|done].
    cbn [mbind option_bind] in H.
    destruct (Cycles n chip1) as [[chip2 out2]|] eqn:Hcs; [|done].
    cbn [mbind option_bind] in H. injection H as <- <-.
    rewrite (IH _ _ _ Hcs). by eapply Cycle_memory.
Qed.

Lemma Loads_keep_fontset files : ∀ chip chip',
  wf chip → 80 <= program_counter chip → Forall file_bytes files →
  Loads files chip = Some chip' →
  program_counter chip' = program_counter chip ∧
  take 80 (memory chip') = take 80 (memory chip).
Proof.
  induction files as [|file rest IH]; intros chip chip' Hwf Hpc Hb H;
    cbn [Loads] in H.
  - by injection H as <-.
  - apply Forall_cons in Hb as [Hfile Hrest].
    destruct (LoadROM chip file) as [[[chip1 ok] out]|] eqn:Hl; [|done].
    cbn [mbind option_bind] in H.
    pose proof (LoadROM_program_counter _ _ _ _ _ Hl) as Hpc1.
    pose proof (LoadROM_keeps_fontset _ _ _ _ _ Hwf Hpc Hl) as Hfont.
    destruct (IH chip1 chip') as [Hpc' Hfont'];
      [by eapply LoadROM_wf|lia|done|done|].
    split; congruence.
Qed.

(** What does hold of the fontset: any number of loads made before the first
    cycle, and any number of cycles after them, leave [memory[0..80)] as
    [NewChip] wrote it. *)
Lemma loads_then_cycles_keep_fontset files n chip0 chip chip' out :
  Forall file_bytes files →
  NewChip = Some chip0 → Loads files chip0 = Some chip →
  Cycles n chip = Some (chip', out) →
  take 80 (memory chip') = fontset.
Proof.
  intros Hb H0 Hl Hc. rewrite NewChip_returns in H0. injection H0 as <-.
  destruct (Loads_keep_fontset files initial_chip chip) as [_ Hfont];
    [apply initial_chip_wf|by compute|done|done|].
  by rewrite (Cycles_memory _ _ _ _ Hc), Hfont.
Qed.

(** C7, on the code. [LoadROM] copies to the program counter, not to 0x200:
    after the ROM 10 00 has been loaded and its jump to 0 executed, a second
    load of the one byte AA overwrites the first byte of the fontset. *)
Theorem LoadROM_after_jump_overwrites_fontset :
  ∃ chip0 chip1 chip2 chip3,
    NewChip = Some chip0 ∧
    LoadROM chip0 (Some [0x10; 0x00]) = Some (chip1, true, []) ∧
    Cycle chip1 = Some (chip2, []) ∧
    LoadROM chip2 (Some [0xAA]) = Some (chip3, true, []) ∧
    take 80 (memory chip0) = fontset ∧
    index (memory chip0) 0 = Some 0xF0 ∧
    index (memory chip3) 0 = Some 0xAA ∧
    take 80 (memory chip3) ≠ fontset.
Proof.
  exists initial_chip. eexists. eexists. eexists.
  split; [exact NewChip_returns|].
  split; [vm_compute; reflexivity|].
  split; [vm_compute; reflexivity|].
  split; [vm_compute; reflexivity|].
  split; [reflexivity|].
  split; [reflexivity|].
  split; [reflexivity|]. vm_compute. discriminate.
Qed.

(** ** The draw loops *)

Lemma pixel_is_Some disp y x :
  wf_display disp → 0 <= y <= 31 → 0 <= x <= 63 → is_Some (pixel disp y x).
Proof.
  intros [Hl Hf] Hy Hx. unfold pixel.
  destruct (index_is_Some disp y ltac:(lia)) as [row Hrow]. rewrite Hrow.
  cbn [mbind option_bind]. apply index_is_Some.
  unfold index in Hrow. destruct (Forall_lookup_1 _ _ _ _ Hf Hrow) as [-> _]. lia.
Qed.

Lemma store2_in_range disp y x v :
  wf_display disp → 0 <= y <= 31 → 0 <= x <= 63 →
  ∃ disp', store2 disp y x v = Some disp'.
Proof.
  intros [Hl Hf] Hy Hx. unfold store2.
  destruct (index_is_Some disp y ltac:(lia)) as [row Hrow]. rewrite Hrow.
  cbn [mbind option_bind].
  assert (length row = 64%nat) as Hrl.
  { unfold index in Hrow. by destruct (Forall_lookup_1 _ _ _ _ Hf Hrow). }
  rewrite (store_in_range row) by lia. cbn [mbind option_bind].
  rewrite store_in_range by lia. eauto.
Qed.

Lemma pixel_store2_eq disp y x v disp' :
  store2 disp y x v = Some disp' → pixel disp' y x = Some v.
Proof.
  unfold store2, pixel. intros H.
  destruct (index disp y) as [row|]; [|done]. cbn [mbind option_bind] in H.
  destruct (store row x v) as [row'|] eqn:Hrow'; [|done].
  cbn [mbind option_bind] in H.
  rewrite (index_store_eq _ _ _ _ H). cbn [mbind option_bind].
  by eapply index_store_eq.
Qed.

Lemma pixel_store2_ne disp y x v disp' yy xx :
  0 <= y → 0 <= x → 0 <= yy → 0 <= xx → (yy, xx) ≠ (y, x) →
  store2 disp y x v = Some disp' → pixel disp' yy xx = pixel disp yy xx.
Proof.
  intros Hy Hx Hyy Hxx Hne H. unfold store2 in H. unfold pixel.
  destruct (index disp y) as [row|] eqn:Hrow; [|done].
  cbn [mbind option_bind] in H.
  destruct (store row x v) as [row'|] eqn:Hrow'; [|done].
  cbn [mbind option_bind] in H.
  destruct (decide (yy = y)) as [->|Hny].
  - rewrite (index_store_eq _ _ _ _ H), Hrow. cbn [mbind option_bind].
    eapply index_store_ne; [exact Hx|exact Hxx| |exact Hrow']. congruence.
  - by rewrite (index_store_ne _ y yy _ _ Hy Hyy ltac:(congruence) H).
Qed.

(** A cell that is on stays on when any cell is set to 1. *)
Lemma pixel_store2_on disp y x disp' yy xx :
  0 <= y → 0 <= x → 0 <= yy → 0 <= xx →
  store2 disp y x 1 = Some disp' →
  pixel disp yy xx = Some 1 → pixel disp' yy xx = Some 1.
Proof.
  intros Hy Hx Hyy Hxx H Hon.
  destruct (decide ((yy, xx) = (y, x))) as [[= -> ->]|Hne].
  - by eapply pixel_store2_eq.
  - by rewrite (pixel_store2_ne _ _ _ _ _ _ _ Hy Hx Hyy Hxx Hne H).
Qed.

(** [byte(1 << j)] is the single bit [j], and [(sprite_byte & mask) >> j] is
    that bit of the sprite byte. *)
Lemma mask_pow2 j : 0 <= j < 8 → u8 (Z.shiftl 1 j) = 2 ^ j.
Proof.
  intros Hj. rewrite Z.shiftl_1_l. unfold u8. apply Z.mod_small.
  split; [apply Z.pow_nonneg; lia|].
  change 256 with (2 ^ 8). apply Z.pow_lt_mono_r; lia.
Qed.

Lemma sprite_bit sb j :
  0 <= j < 8 →
  Z.shiftr (Z.land sb (u8 (Z.shiftl 1 j))) j = Z.b2z (Z.testbit sb j).
Proof.
  intros Hj. rewrite mask_pow2 by done.
  rewrite Z.shiftr_land, (Z.shiftr_div_pow2 (2 ^ j)), Z.div_same by lia.
  rewrite Z.testbit_spec', Z.shiftr_div_pow2 by lia.
  exact (Z.land_ones (sb / 2 ^ j) 1 ltac:(lia)).
Qed.

(** [sprite_byte & (^mask)] clears bit [j] and keeps the others. *)
Lemma clear_bit_other sb j j' :
  0 <= j < 8 → 0 <= j' < 8 → j' ≠ j →
  Z.testbit (Z.land sb (u8 (Z.lnot (u8 (Z.shiftl 1 j))))) j' = Z.testbit sb j'.
Proof.
  intros Hj Hj' Hne. rewrite mask_pow2 by done.
  rewrite Z.land_spec. unfold u8. change 256 with (2 ^ 8).
  rewrite Z.mod_pow2_bits_low, Z.lnot_spec, Z.pow2_bits_false by lia.
  apply andb_true_r.
Qed.

(** The inner loop on a sprite byte whose bits [n-1 .. 0] are all set, from
    a column and a row inside the display: it returns; every cell it visits
    is on afterwards; no cell that was on is off afterwards; no register but
    VF changes; VF is not reset, and it is 1 when the first cell was on. *)
Lemma draw_row_ones n : ∀ sb x y d r,
  (n <= 8)%nat → (∀ j, 0 <= j < Z.of_nat n → Z.testbit sb j = true) →
  wf_display d → wf_regs r → 0 <= x <= 63 → 0 <= y <= 31 →
  ∃ d' r' x', draw_row n sb x y d r = Some (d', r', x') ∧
    (∀ k, 0 <= k < Z.of_nat n → x + k <= 63 → pixel d' y (x + k) = Some 1) ∧
    (∀ yy xx, 0 <= yy → 0 <= xx →
              pixel d yy xx = Some 1 → pixel d' yy xx = Some 1) ∧
    (∀ i, 0 <= i → i ≠ 15 → index r' i = index r i) ∧
    (index r 15 = Some 1 → index r' 15 = Some 1) ∧
    ((0 < n)%nat → pixel d y x = Some 1 → index r' 15 = Some 1).
Proof.
  induction n as [|j' IH]; intros sb x y d r Hn Hbits Hd Hr Hx Hy.
  { exists d, r, x. split; [reflexivity|]. repeat split; auto; lia. }
  cbn [draw_row]. rewrite sprite_bit by lia. rewrite Hbits by lia.
  cbn [Z.b2z Z.eqb Pos.eqb].
  destruct (pixel_is_Some d y x Hd Hy Hx) as [p Hp].
  pose proof Hp as Hp'. unfold pixel in Hp'.
  destruct (index d y) as [row|]; [|done]. cbn [mbind option_bind] in Hp' |- *.
  rewrite Hp'. cbn [mbind option_bind].
  assert (u8 (x + 1) = x + 1 ∨ (x >? 62) = true) as Hx1.
  { destruct (Z.gtb_spec x 62); [by right|left]. apply Z.mod_small. lia. }
  destruct (Z.eqb_spec p 1) as [->|Hp1].
  - (* the cell is on: collision *)
    destruct Hr as [Hrl Hrf].
    rewrite (store_in_range r 15 1) by lia. cbn [mbind option_bind].
    set (r1 := <[Z.to_nat 15 := 1]> r).
    assert (store r 15 1 = Some r1) as Hs by (by rewrite store_in_range by lia).
    assert (wf_regs r1) as Hr1
      by (eapply store_wf_regs; [split; [exact Hrl|exact Hrf]| |exact Hs]; by compute).
    destruct (Z.gtb_spec x 62) as [Hedge|Hin].
    + exists d, r1, x. split; [reflexivity|]. repeat split; auto.
      * intros k Hk Hk'. by replace (x + k) with x by lia.
      * intros i Hi Hne. by eapply index_store_ne; [| | |exact Hs].
      * intros _. by eapply index_store_eq.
      * intros _ _. by eapply index_store_eq.
    + destruct Hx1 as [->|?]; [|lia].
      destruct (IH (Z.land sb (u8 (Z.lnot (u8 (Z.shiftl 1 (Z.of_nat j'))))))
                  (x + 1) y d r1) as (d' & r' & x' & -> & P1 & P2 & P3 & P4 & _);
        [lia| |done|done|lia|done|].
      { intros j Hj. rewrite clear_bit_other by lia. apply Hbits. lia. }
      exists d', r', x'. split; [reflexivity|].
      assert (index r' 15 = Some 1) as HVF by (apply P4; by eapply index_store_eq).
      repeat split; auto.
      * intros k Hk Hk'. destruct (decide (k = 0)) as [->|Hk0].
        -- rewrite Z.add_0_r. apply P2; [lia..|done].
        -- replace (x + k) with (x + 1 + (k - 1)) by lia. apply P1; lia.
      * intros i Hi Hne. rewrite P3 by done.
        by eapply index_store_ne; [| | |exact Hs].
  - (* the cell is not on: it is set *)
    destruct (store2_in_range d y x 1 Hd Hy Hx) as [d1 Hd1].
    rewrite Hd1. cbn [mbind option_bind].
    assert (wf_display d1) as Hwd1
      by (eapply store2_wf_display; [exact Hd| |exact Hd1]; by compute).
    assert (p ≠ 1 → pixel d y x ≠ Some 1) as Hoff by congruence.
    destruct (Z.gtb_spec x 62) as [Hedge|Hin].
    + exists d1, r, x. split; [reflexivity|]. repeat split; auto.
      * intros k Hk Hk'. replace (x + k) with x by lia.
        by eapply pixel_store2_eq.
      * intros yy xx Hyy Hxx. by eapply pixel_store2_on; [| | | |exact Hd1]; lia.
      * intros _ Hon. by destruct (Hoff Hp1).
    + destruct Hx1 as [->|?]; [|lia].
      destruct (IH sb (x + 1) y d1 r)
        as (d' & r' & x' & -> & P1 & P2 & P3 & P4 & _);
        [lia|intros j Hj; apply Hbits; lia|done|done|lia|done|].
      exists d', r', x'. split; [reflexivity|]. repeat split; auto.
      * intros k Hk Hk'. destruct (decide (k = 0)) as [->|Hk0].
        -- rewrite Z.add_0_r. apply P2; [lia..|]. by eapply pixel_store2_eq.
        -- replace (x + k) with (x + 1 + (k - 1)) by lia. apply P1; lia.
      * intros yy xx Hyy Hxx Hon. apply P2; [done..|].
        eapply pixel_store2_on; [| | | |exact Hd1|exact Hon]; lia.
      * intros _ Hon. by destruct (Hoff Hp1).
Qed.

(** The digits of [0xCXYN]. *)
Lemma decode_CXYN (C X Y N : Z) :
  0 <= C < 16 → 0 <= X < 16 → 0 <= Y < 16 → 0 <= N < 16 →
  let op := 0x1000 * C + 0x100 * X + 0x10 * Y + N in
  GetNibbles op 12 0xF000 = C ∧ GetNibbles op 8 0x0F00 = X ∧
  GetNibbles op 4 0x00F0 = Y ∧ GetNibbles op 0 0x000F = N.
Proof.
  intros HC HX HY HN op. rewrite nibble_1, nibble_X, nibble_Y, nibble_N.
  subst op. repeat split.
  - replace (4096 * C + 256 * X + 16 * Y + N)
      with (C * 4096 + (256 * X + 16 * Y + N)) by lia.
    rewrite Z.div_add_l by lia. rewrite (Z.div_small (256 * X + 16 * Y + N)) by lia.
    rewrite Z.add_0_r. apply Z.mod_small. lia.
  - replace (4096 * C + 256 * X + 16 * Y + N)
      with ((C * 16 + X) * 256 + (16 * Y + N)) by lia.
    rewrite Z.div_add_l by lia. rewrite (Z.div_small (16 * Y + N)) by lia.
    rewrite Z.add_0_r, Z.add_comm, Z.mod_add by lia. apply Z.mod_small. lia.
  - replace (4096 * C + 256 * X + 16 * Y + N)
      with ((C * 256 + X * 16 + Y) * 16 + N) by lia.
    rewrite Z.div_add_l by lia. rewrite (Z.div_small N) by lia.
    rewrite Z.add_0_r.
    replace (C * 256 + X * 16 + Y) with (Y + (C * 16 + X) * 16) by lia.
    rewrite Z.mod_add by lia. apply Z.mod_small. lia.
  - replace (4096 * C + 256 * X + 16 * Y + N)
      with (N + (C * 256 + X * 16 + Y) * 16) by lia.
    rewrite Z.mod_add by lia. apply Z.mod_small. lia.
Qed.

(** [x & 63] and [y & 31] are inside the display. *)
Lemma land_63_range x : 0 <= Z.land x 63 <= 63.
Proof.
  change 63 with (Z.ones 6). rewrite Z.land_ones by lia.
  pose proof (Z.mod_pos_bound x (2 ^ 6) ltac:(lia)). change (Z.ones 6) with 63.
  change (2 ^ 6) with 64 in *. lia.
Qed.

Lemma land_31_range y : 0 <= Z.land y 31 <= 31.
Proof.
  change 31 with (Z.ones 5). rewrite Z.land_ones by lia.
  pose proof (Z.mod_pos_bound y (2 ^ 5) ltac:(lia)). change (Z.ones 5) with 31.
  change (2 ^ 5) with 32 in *. lia.
Qed.

Lemma bits_of_FF j : 0 <= j < Z.of_nat 8 → Z.testbit 0xFF j = true.
Proof.
  intros Hj.
  assert (j = 0 ∨ j = 1 ∨ j = 2 ∨ j = 3 ∨ j = 4 ∨ j = 5 ∨ j = 6 ∨ j = 7)
    as [->|[->|[->|[->|[->|[->|[->| ->]]]]]]] by lia; reflexivity.
Qed.

(** One DXY1 on the sprite byte 0xFF, from any state: the cycle returns, the
    cells of the row that lie inside the display are on afterwards, no cell
    is turned off, and VF is 1 when the first cell was on before. *)
Lemma Cycle_DXY1_FF chip X Y x y :
  wf chip → 0 <= X < 16 → 0 <= Y < 16 →
  fetch chip = Some (0xD000 + 0x100 * X + 0x10 * Y + 1) →
  index (registers chip) X = Some x → index (registers chip) Y = Some y →
  index (memory chip) (index_register chip) = Some 0xFF →
  ∃ chip1, Cycle chip = Some (chip1, []) ∧
    memory chip1 = memory chip ∧
    index_register chip1 = index_register chip ∧
    program_counter chip1 = program_counter chip + 2 ∧
    (∀ i, 0 <= i → i ≠ 15 → index (registers chip1) i = index (registers chip) i) ∧
    (∀ k, 0 <= k < 8 → Z.land x 63 + k <= 63 →
          pixel (display chip1) (Z.land y 31) (Z.land x 63 + k) = Some 1) ∧
    (∀ yy xx, 0 <= yy → 0 <= xx → pixel (display chip) yy xx = Some 1 →
              pixel (display chip1) yy xx = Some 1) ∧
    (pixel (display chip) (Z.land y 31) (Z.land x 63) = Some 1 →
     index (registers chip1) 15 = Some 1).
Proof.
  intros Hwf HX HY Hf Hx Hy Hsprite. rewrite (Cycle_fetch _ _ Hf).
  destruct (decode_CXYN 13 X Y 1 ltac:(lia) HX HY ltac:(lia)) as (E1 & EX & EY & EN).
  change (0x1000 * 13) with 0xD000 in E1, EX, EY, EN.
  rewrite (execute_13 _ _ E1), EX, EY, EN, Hx, Hy. cbn [mbind option_bind].
  pose proof (wf_registers _ Hwf) as Hr.
  rewrite (store_in_range (registers chip) 15 0) by (rewrite (proj1 Hr); lia).
  cbn [mbind option_bind].
  set (r0 := <[Z.to_nat 15 := 0]> (registers chip)).
  assert (store (registers chip) 15 0 = Some r0) as Hs
    by (rewrite store_in_range by (rewrite (proj1 Hr); lia); reflexivity).
  assert (wf_regs r0) as Hr0 by (eapply store_wf_regs; [exact Hr| |exact Hs]; by compute).
  change (Z.to_nat 1) with 1%nat. cbn [draw_rows].
  assert (u16 (index_register chip + u16 0) = index_register chip) as ->.
  { change (u16 0) with 0. rewrite Z.add_0_r. apply Z.mod_small.
    apply (wf_index_register _ Hwf). }
  rewrite Hsprite. cbn [mbind option_bind].
  destruct (draw_row_ones 8 0xFF (Z.land x 63) (Z.land y 31) (display chip) r0)
    as (d' & r' & x' & -> & P1 & P2 & P3 & P4 & P5);
    [lia|exact bits_of_FF|apply (wf_disp _ Hwf)|exact Hr0
    |apply land_63_range|apply land_31_range|].
  cbn [mbind option_bind].
  eexists. split.
  { destruct (u8 (Z.land y 31 + 1) >? 30); reflexivity. }
  cbn [memory index_register program_counter registers display
       set_program_counter set_display set_registers].
  split; [reflexivity|]. split; [reflexivity|].
  split; [exact (fetch_advance _ _ Hwf Hf)|].
  split.
  { intros i Hi Hne. rewrite P3 by done.
    by eapply index_store_ne; [| | |exact Hs]. }
  split; [exact P1|]. split; [exact P2|]. intros Hon. apply P5; [lia|done].
Qed.

(** The draw sets cells and never clears one: a cell that is on before a
    DXYN is on after it, whatever the sprite. *)
Lemma draw_row_keeps_on n : ∀ sb x y d r d' r' x',
  0 <= x → 0 <= y → draw_row n sb x y d r = Some (d', r', x') →
  ∀ yy xx, 0 <= yy → 0 <= xx → pixel d yy xx = Some 1 → pixel d' yy xx = Some 1.
Proof.
  induction n as [|j IH]; intros sb x y d r d' r' x' Hx Hy H; simpl in H.
  - by injection H as <- <- <-.
  - match type of H with (?m ≫= _) = _ => destruct m as [collide|] end; [|done].
    simpl in H.
    assert (0 <= u8 (x + 1)) as Hx1 by (apply Z.mod_pos_bound; lia).
    destruct collide.
    + destruct (store r 15 1) as [r1|]; [|done]. simpl in H.
      destruct (x >? 62); [by injection H as <- <- <-|].
      by eapply IH; [exact Hx1|exact Hy|exact H].
    + destruct (store2 d y x 1) as [d1|] eqn:Hd1; [|done]. simpl in H.
      intros yy xx Hyy Hxx Hon.
      assert (pixel d1 yy xx = Some 1) as Hon1
        by (by eapply pixel_store2_on; [| | | |exact Hd1|exact Hon]).
      destruct (x >? 62); [by injection H as <- <- <-|].
      by eapply IH; [exact Hx1|exact Hy|exact H| | |exact Hon1].
Qed.

Lemma draw_row_column n : ∀ sb x y d r d' r' x',
  0 <= x → draw_row n sb x y d r = Some (d', r', x') → 0 <= x'.
Proof.
  induction n as [|j IH]; intros sb x y d r d' r' x' Hx H; simpl in H.
  - by injection H as <- <- <-.
  - match type of H with (?m ≫= _) = _ => destruct m as [collide|] end; [|done].
    simpl in H.
    assert (0 <= u8 (x + 1)) as Hx1 by (apply Z.mod_pos_bound; lia).
    destruct collide.
    + destruct (store r 15 1) as [r1|]; [|done]. simpl in H.
      destruct (x >? 62); [by injection H as <- <- <-|].
      by eapply IH; [exact Hx1|exact H].
    + destruct (store2 d y x 1) as [d1|]; [|done]. simpl in H.
      destruct (x >? 62); [by injection H as <- <- <-|].
      by eapply IH; [exact Hx1|exact H].
Qed.

Lemma draw_rows_keeps_on n : ∀ i x y d r mem I d' r',
  0 <= x → 0 <= y → draw_rows n i x y d r mem I = Some (d', r') →
  ∀ yy xx, 0 <= yy → 0 <= xx → pixel d yy xx = Some 1 → pixel d' yy xx = Some 1.
Proof.
  induction n as [|n IH]; intros i x y d r mem I d' r' Hx Hy H;
    cbn [draw_rows] in H.
  - by injection H as <- <-.
  - destruct (index mem (u16 (I + u16 i))) as [sb|]; [|done].
    cbn [mbind option_bind] in H.
    destruct (draw_row 8 sb x y d r) as [[[d1 r1] x1]|] eqn:Hrow; [|done].
    cbn [mbind option_bind] in H.
    pose proof (draw_row_keeps_on _ _ _ _ _ _ _ _ _ Hx Hy Hrow) as Hkeep.
    pose proof (draw_row_column _ _ _ _ _ _ _ _ _ Hx Hrow) as Hx1.
    assert (0 <= u8 (y + 1)) as Hy1 by (apply Z.mod_pos_bound; lia).
    intros yy xx Hyy Hxx Hon.
    destruct (u8 (y + 1) >? 30); [injection H as <- <-; by apply Hkeep|].
    eapply IH; [exact Hx1|exact Hy1|exact H|done|done|by apply Hkeep].
Qed.

Lemma Cycle_draw_keeps_on chip opcode chip' out :
  fetch chip = Some opcode → GetNibbles opcode 12 0xF000 = 13 →
  Cycle chip = Some (chip', out) →
  ∀ yy xx, 0 <= yy → 0 <= xx →
           pixel (display chip) yy xx = Some 1 → pixel (display chip') yy xx = Some 1.
Proof.
  intros Hf E H. rewrite (Cycle_fetch _ _ Hf), (execute_13 _ _ E) in H.
  destruct (index (registers chip) (GetNibbles opcode 8 _)) as [x|]; [|done].
  cbn [mbind option_bind] in H.
  destruct (index (registers chip) (GetNibbles opcode 4 _)) as [y|]; [|done].
  cbn [mbind option_bind] in H.
  destruct (store (registers chip) 15 0) as [regs|]; [|done].
  cbn [mbind option_bind] in H.
  destruct (draw_rows _ _ _ _ _ _ _ _) as [[disp regs']|] eqn:Hdraw; [|done].
  injection H as <- <-. cbn [display set_program_counter set_display].
  eapply draw_rows_keeps_on; [| |exact Hdraw].
  - apply land_63_range.
  - apply land_31_range.
Qed.

(** The fetch reads the memory and the program counter only. *)
Lemma fetch_ext chip chip' :
  memory chip' = memory chip → program_counter chip' = program_counter chip →
  fetch chip' = fetch chip.
Proof. intros Hm Hpc. unfold fetch. by rewrite Hm, Hpc. Qed.

(** ** Drawing the same sprite twice *)

(** C1, on the code. For every display state and every location: when two
    DXY1 instructions in a row (X and Y not F) draw the sprite byte 0xFF, both
    cycles return, and the second leaves VF = 1, as the claim says, but the
    cells of the row, from the column [Vx & 63] to the right edge or eight
    cells on, are all on after it, not off. *)
Theorem draw_FF_twice_leaves_row_on chip X Y x y :
  wf chip → 0 <= X < 15 → 0 <= Y < 15 →
  fetch chip = Some (0xD000 + 0x100 * X + 0x10 * Y + 1) →
  fetch (set_program_counter (program_counter chip + 2) chip) =
    Some (0xD000 + 0x100 * X + 0x10 * Y + 1) →
  index (registers chip) X = Some x → index (registers chip) Y = Some y →
  index (memory chip) (index_register chip) = Some 0xFF →
  ∃ chip1 chip2,
    Cycle chip = Some (chip1, []) ∧ Cycle chip1 = Some (chip2, []) ∧
    index (registers chip1) X = Some x ∧ index (registers chip1) Y = Some y ∧
    index (registers chip2) 15 = Some 1 ∧
    ∀ k, 0 <= k < 8 → Z.land x 63 + k <= 63 →
         pixel (display chip2) (Z.land y 31) (Z.land x 63 + k) = Some 1.
Proof.
  intros Hwf HX HY Hf Hf2 Hx Hy Hsprite.
  destruct (Cycle_DXY1_FF chip X Y x y) as
    (chip1 & Hc1 & Hm1 & HI1 & Hpc1 & Hr1 & Hon1 & _ & _);
    [done|lia|lia|done..|].
  assert (wf chip1) as Hwf1 by (by eapply Cycle_wf).
  assert (index (registers chip1) X = Some x) as Hx1 by (rewrite Hr1; [done|lia..]).
  assert (index (registers chip1) Y = Some y) as Hy1 by (rewrite Hr1; [done|lia..]).
  destruct (Cycle_DXY1_FF chip1 X Y x y) as
    (chip2 & Hc2 & _ & _ & _ & _ & Hon2 & _ & HVF);
    [done|lia|lia| |done|done| |].
  { rewrite <- Hf2. by apply fetch_ext. }
  { by rewrite Hm1, HI1. }
  exists chip1, chip2. repeat split; auto.
  apply HVF. specialize (Hon1 0). rewrite Z.add_0_r in Hon1.
  apply Hon1; [lia|]. pose proof (land_63_range x). lia.
Qed.

Lemma draw_FF_twice_leaves_row_on_witness :
  wf chip_before_draw ∧
  display chip_before_draw = zero_display ∧
  fetch chip_before_draw = Some (0xD000 + 0x100 * 0 + 0x10 * 1 + 1) ∧
  ∃ chip1 chip2,
    Cycle chip_before_draw = Some (chip1, []) ∧ Cycle chip1 = Some (chip2, []) ∧
    index (registers chip1) 0 = Some 10 ∧ index (registers chip1) 1 = Some 5 ∧
    index (registers chip2) 15 = Some 1 ∧
    ∀ k, 0 <= k < 8 → Z.land 10 63 + k <= 63 →
         pixel (display chip2) (Z.land 5 31) (Z.land 10 63 + k) = Some 1.
Proof.
  split; [apply wf_decide; vm_compute; reflexivity|].
  split; [vm_compute; reflexivity|].
  split; [vm_compute; reflexivity|].
  apply (draw_FF_twice_leaves_row_on chip_before_draw 0 1 10 5);
    [apply wf_decide; vm_compute; reflexivity|lia|lia
    |vm_compute; reflexivity|vm_compute; reflexivity|vm_compute; reflexivity
    |vm_compute; reflexivity|vm_compute; reflexivity].
Defined.

(** The run of [sprite_twice] in full. From the all-off display, DXY1 on the
    sprite byte 0xFF at (10, 5) turns the eight pixels on; the same DXY1 again
    sets VF = 1 but leaves the eight pixels on: row 5 does not return to
    all-off. *)
Example sprite_twice_run :
  ∃ chip chip1 chip2,
    boot sprite_twice ≫= Cycles 3 = Some (chip, []) ∧
    display chip = zero_display ∧
    index (registers chip) 0 = Some 10 ∧ index (registers chip) 1 = Some 5 ∧
    index (memory chip) (index_register chip) = Some 0xFF ∧
    fetch chip = Some 0xD011 ∧ Cycle chip = Some (chip1, []) ∧
    index (display chip1) 5 = Some (replicate 10 0 ++ replicate 8 1 ++ replicate 46 0) ∧
    index (registers chip1) 15 = Some 0 ∧
    fetch chip1 = Some 0xD011 ∧ Cycle chip1 = Some (chip2, []) ∧
    index (display chip2) 5 = Some (replicate 10 0 ++ replicate 8 1 ++ replicate 46 0) ∧
    index (registers chip2) 15 = Some 1 ∧
    index (display chip2) 5 ≠ index zero_display 5.
Proof.
  eexists. eexists. eexists.
  split; [vm_compute; reflexivity|].
  split; [reflexivity|].
  split; [reflexivity|].
  split; [reflexivity|].
  split; [reflexivity|].
  split; [reflexivity|].
  split; [vm_compute; reflexivity|].
  split; [reflexivity|].
  split; [reflexivity|].
  split; [reflexivity|].
  split; [vm_compute; reflexivity|].
  split; [reflexivity|].
  split; [reflexivity|]. vm_compute. discriminate.
Qed.

(** * Further properties of the code *)

(** ** [GetNibbles] *)

(** X1. [GetNibbles] with the masks and shifts [Cycle] uses splits a 16-bit
    word into its four hexadecimal digits: each is below 16, the word is
    their positional sum, and the NN and NNN operands are the low two and
    three digits. *)
Theorem GetNibbles_hex_digits opcode :
  0 <= opcode < 65536 →
  let c := GetNibbles opcode 12 0xF000 in
  let x := GetNibbles opcode 8 0x0F00 in
  let y := GetNibbles opcode 4 0x00F0 in
  let n := GetNibbles opcode 0 0x000F in
  (0 <= c < 16 ∧ 0 <= x < 16 ∧ 0 <= y < 16 ∧ 0 <= n < 16) ∧
  opcode = 0x1000 * c + 0x100 * x + 0x10 * y + n ∧
  GetNibbles opcode 0 0x00FF = 0x10 * y + n ∧
  GetNibbles opcode 0 0x0FFF = 0x100 * x + 0x10 * y + n.
Proof.
  intros Hop c x y n. subst c x y n.
  rewrite nibble_1, nibble_X, nibble_Y, nibble_N, nibble_NN, nibble_NNN.
  Z.to_euclidean_division_equations. lia.
Qed.

Lemma GetNibbles_hex_digits_witness :
  0 <= 0xD7A5 < 65536 ∧
  (0 <= GetNibbles 0xD7A5 12 0xF000 < 16 ∧ 0 <= GetNibbles 0xD7A5 8 0x0F00 < 16 ∧
   0 <= GetNibbles 0xD7A5 4 0x00F0 < 16 ∧ 0 <= GetNibbles 0xD7A5 0 0x000F < 16) ∧
  0xD7A5 = 0x1000 * GetNibbles 0xD7A5 12 0xF000 + 0x100 * GetNibbles 0xD7A5 8 0x0F00
           + 0x10 * GetNibbles 0xD7A5 4 0x00F0 + GetNibbles 0xD7A5 0 0x000F ∧
  GetNibbles 0xD7A5 0 0x00FF =
    0x10 * GetNibbles 0xD7A5 4 0x00F0 + GetNibbles 0xD7A5 0 0x000F ∧
  GetNibbles 0xD7A5 0 0x0FFF =
    0x100 * GetNibbles 0xD7A5 8 0x0F00 + 0x10 * GetNibbles 0xD7A5 4 0x00F0
    + GetNibbles 0xD7A5 0 0x000F.
Proof.
  split; [lia|]. apply (GetNibbles_hex_digits 0xD7A5). lia.
Defined.

(** ** The fetch *)

Lemma lor_high_low hi lo :
  0 <= hi < 256 → 0 <= lo < 256 → Z.lor (u16 (Z.shiftl hi 8)) lo = 0x100 * hi + lo.
Proof.
  intros Hhi Hlo. rewrite Z.shiftl_mul_pow2 by lia. change (2 ^ 8) with 256.
  unfold u16. rewrite Z.mod_small by lia.
  rewrite <- Z.lxor_lor, <- Z.add_nocarry_lxor; [lia| |];
    (apply Z.bits_inj'; intros k Hk; rewrite Z.land_spec, Z.bits_0;
     destruct (Z_lt_le_dec k 8) as [Hlt|Hge];
     [change 256 with (2 ^ 8); rewrite Z.mul_pow2_bits_low by lia; reflexivity
     |rewrite (Z.bits_above_log2 lo k);
      [apply andb_false_r|lia|
       destruct (decide (lo = 0)) as [->|Hne]; [simpl; lia|];
       apply Z.log2_lt_pow2; [lia|];
       apply Z.lt_le_trans with (2 ^ 8); [simpl; lia|apply Z.pow_le_mono_r; lia]]]).
Qed.

Lemma fetch_bytes chip hi lo :
  wf chip →
  index (memory chip) (program_counter chip) = Some hi →
  index (memory chip) (program_counter chip + 1) = Some lo →
  fetch chip = Some (0x100 * hi + lo) ∧ 0 <= 0x100 * hi + lo < 65536.
Proof.
  intros Hwf Hhi Hlo.
  pose proof (wf_memory _ Hwf) as [Hlen Hbytes].
  pose proof (wf_program_counter _ Hwf) as [Hpc0 _].
  assert (is_u8 hi) as Hh by (by eapply (Forall_lookup_1 _ _ _ _ Hbytes Hhi)).
  assert (is_u8 lo) as Hl by (by eapply (Forall_lookup_1 _ _ _ _ Hbytes Hlo)).
  pose proof (index_Some_lt _ _ _ Hlo) as Hlt. rewrite Hlen in Hlt.
  unfold is_u8 in Hh, Hl. split; [|lia].
  unfold fetch. rewrite Hhi. cbn [mbind option_bind].
  assert (u16 (program_counter chip + 1) = program_counter chip + 1) as ->
    by (apply Z.mod_small; lia).
  rewrite Hlo. cbn [mbind option_bind]. by rewrite lor_high_low.
Qed.

(** X2. The fetch is big-endian: when the bytes at the program counter and
    after it are [hi] and [lo], the opcode is [0x100 * hi + lo], a 16-bit
    word. *)
Theorem fetch_big_endian chip hi lo :
  wf chip →
  index (memory chip) (program_counter chip) = Some hi →
  index (memory chip) (program_counter chip + 1) = Some lo →
  fetch chip = Some (0x100 * hi + lo) ∧ 0 <= 0x100 * hi + lo < 65536.
Proof. exact (fetch_bytes chip hi lo). Qed.

Lemma fetch_big_endian_witness :
  wf (booted [0xA2; 0xF0]) ∧
  index (memory (booted [0xA2; 0xF0])) (program_counter (booted [0xA2; 0xF0]))
    = Some 0xA2 ∧
  index (memory (booted [0xA2; 0xF0])) (program_counter (booted [0xA2; 0xF0]) + 1)
    = Some 0xF0 ∧
  fetch (booted [0xA2; 0xF0]) = Some (0x100 * 0xA2 + 0xF0) ∧
  0 <= 0x100 * 0xA2 + 0xF0 < 65536.
Proof.
  split; [apply wf_decide; vm_compute; reflexivity|].
  split; [vm_compute; reflexivity|].
  split; [vm_compute; reflexivity|].
  apply (fetch_big_endian (booted [0xA2; 0xF0]) 0xA2 0xF0);
    [apply wf_decide; vm_compute; reflexivity|vm_compute; reflexivity
    |vm_compute; reflexivity].
Defined.

Lemma fetch_in_range chip :
  wf chip → program_counter chip < 4095 → is_Some (fetch chip).
Proof.
  intros Hwf Hlt. pose proof (proj1 (wf_memory _ Hwf)) as Hlen.
  pose proof (wf_program_counter _ Hwf) as [Hpc0 Hpc1]. unfold fetch.
  destruct (index_is_Some (memory chip) (program_counter chip)) as [hi ->];
    [lia|]. cbn [mbind option_bind].
  destruct (index_is_Some (memory chip) (u16 (program_counter chip + 1)))
    as [lo ->]; [unfold u16; rewrite Z.mod_small by lia; lia|]. done.
Qed.

(** X3. The fetch reads two bytes, so it panics exactly when the program
    counter is 4095 or more: at 4095 the second byte is outside the memory. *)
Theorem fetch_panics_iff chip :
  wf chip → (fetch chip = None ↔ 4095 <= program_counter chip).
Proof.
  intros Hwf. pose proof (proj1 (wf_memory _ Hwf)) as Hlen.
  pose proof (wf_program_counter _ Hwf) as [Hpc0 Hpc1]. split.
  - intros Hf. destruct (Z_lt_le_dec (program_counter chip) 4095) as [Hlt|]; [|done].
    exfalso. unfold fetch in Hf.
    destruct (index_is_Some (memory chip) (program_counter chip)) as [hi Hhi];
      [lia|]. rewrite Hhi in Hf. cbn [mbind option_bind] in Hf.
    destruct (index_is_Some (memory chip) (u16 (program_counter chip + 1)))
      as [lo Hlo]; [unfold u16; rewrite Z.mod_small by lia; lia|].
    rewrite Hlo in Hf. done.
  - intros Hge. destruct (fetch chip) as [op|] eqn:Hf; [|done].
    pose proof (fetch_program_counter _ _ Hwf Hf). lia.
Qed.

Lemma fetch_panics_iff_witness :
  wf (ran [0x1F; 0xFF] 1) ∧ program_counter (ran [0x1F; 0xFF] 1) = 4095 ∧
  (fetch (ran [0x1F; 0xFF] 1) = None ↔ 4095 <= program_counter (ran [0x1F; 0xFF] 1)).
Proof.
  split; [apply wf_decide; vm_compute; reflexivity|].
  split; [vm_compute; reflexivity|].
  apply (fetch_panics_iff (ran [0x1F; 0xFF] 1)).
  apply wf_decide; vm_compute; reflexivity.
Defined.

(** ** Jump, set index, clear *)

Lemma set_program_counter_same chip :
  set_program_counter (program_counter chip) chip = chip.
Proof. by destruct chip. Qed.

Lemma decode_1NNN NNN :
  0 <= NNN < 4096 →
  GetNibbles (0x1000 + NNN) 12 0xF000 = 1 ∧ GetNibbles (0x1000 + NNN) 0 0x0FFF = NNN.
Proof.
  intros H. rewrite nibble_1, nibble_NNN.
  Z.to_euclidean_division_equations. lia.
Qed.

Lemma Cycle_1NNN_jumps_aux chip :
  0 <= program_counter chip < 4096 →
  fetch chip = Some (0x1000 + program_counter chip) →
  Cycle chip = Some (chip, []).
Proof.
  intros HN Hf. destruct (decode_1NNN _ HN) as [E1 EN].
  rewrite (Cycle_fetch _ _ Hf), (execute_1 _ _ E1), EN.
  unfold u16. rewrite Z.mod_small by lia.
  by rewrite set_program_counter_same.
Qed.

(** X4. 1NNN sets the program counter to NNN and changes nothing else; it
    prints nothing. *)
Theorem Cycle_1NNN_jumps chip NNN :
  0 <= NNN < 4096 → fetch chip = Some (0x1000 + NNN) →
  Cycle chip = Some (set_program_counter NNN chip, []).
Proof.
  intros HN Hf. destruct (decode_1NNN NNN HN) as [E1 EN].
  rewrite (Cycle_fetch _ _ Hf), (execute_1 _ _ E1), EN.
  unfold u16. rewrite Z.mod_small by lia. reflexivity.
Qed.

Lemma Cycle_1NNN_jumps_witness :
  0 <= 0x2F0 < 4096 ∧ fetch (booted [0x12; 0xF0]) = Some (0x1000 + 0x2F0) ∧
  Cycle (booted [0x12; 0xF0]) =
    Some (set_program_counter 0x2F0 (booted [0x12; 0xF0]), []).
Proof.
  split; [lia|]. split; [vm_compute; reflexivity|].
  apply (Cycle_1NNN_jumps (booted [0x12; 0xF0]) 0x2F0);
    [lia|vm_compute; reflexivity].
Defined.

(** X5. A jump to its own address is a fixed point: any number of cycles
    leaves the state as it is and prints nothing (the usual way a CHIP-8
    program halts). *)
Theorem jump_to_self_stays chip n :
  0 <= program_counter chip < 4096 →
  fetch chip = Some (0x1000 + program_counter chip) →
  Cycles n chip = Some (chip, []).
Proof.
  intros Hpc Hf. induction n as [|n IH]; [reflexivity|].
  cbn [Cycles]. rewrite (Cycle_1NNN_jumps_aux chip Hpc Hf).
  cbn [mbind option_bind]. rewrite IH. reflexivity.
Qed.

Lemma jump_to_self_stays_witness :
  0 <= program_counter (booted [0x12; 0x00]) < 4096 ∧
  fetch (booted [0x12; 0x00]) = Some (0x1000 + program_counter (booted [0x12; 0x00])) ∧
  Cycles 5 (booted [0x12; 0x00]) = Some (booted [0x12; 0x00], []).
Proof.
  split; [vm_compute; split; [discriminate|reflexivity]|].
  split; [vm_compute; reflexivity|].
  apply (jump_to_self_stays (booted [0x12; 0x00]) 5);
    [vm_compute; split; [discriminate|reflexivity]|vm_compute; reflexivity].
Defined.

Lemma decode_ANNN NNN :
  0 <= NNN < 4096 →
  GetNibbles (0xA000 + NNN) 12 0xF000 = 10 ∧ GetNibbles (0xA000 + NNN) 0 0x0FFF = NNN.
Proof.
  intros H. rewrite nibble_1, nibble_NNN.
  Z.to_euclidean_division_equations. lia.
Qed.

(** X6. ANNN sets the index register to NNN, advances the program counter
    by 2 and changes nothing else. *)
Theorem Cycle_ANNN_sets_index chip NNN :
  wf chip → 0 <= NNN < 4096 → fetch chip = Some (0xA000 + NNN) →
  Cycle chip =
    Some (set_program_counter (program_counter chip + 2)
            (set_index_register NNN chip), []).
Proof.
  intros Hwf HN Hf. destruct (decode_ANNN NNN HN) as [E1 EN].
  rewrite (Cycle_fetch _ _ Hf), (execute_10 _ _ E1), EN.
  cbn [program_counter set_index_register].
  rewrite (fetch_advance _ _ Hwf Hf).
  unfold u16. rewrite Z.mod_small by lia. reflexivity.
Qed.

Lemma Cycle_ANNN_sets_index_witness :
  wf (booted [0xA2; 0xF0]) ∧ 0 <= 0x2F0 < 4096 ∧
  fetch (booted [0xA2; 0xF0]) = Some (0xA000 + 0x2F0) ∧
  Cycle (booted [0xA2; 0xF0]) =
    Some (set_program_counter (program_counter (booted [0xA2; 0xF0]) + 2)
            (set_index_register 0x2F0 (booted [0xA2; 0xF0])), []).
Proof.
  split; [apply wf_decide; vm_compute; reflexivity|].
  split; [lia|]. split; [vm_compute; reflexivity|].
  apply (Cycle_ANNN_sets_index (booted [0xA2; 0xF0]) 0x2F0);
    [apply wf_decide; vm_compute; reflexivity|lia|vm_compute; reflexivity].
Defined.

Lemma pixel_zero_display y x :
  0 <= y < 32 → 0 <= x < 64 → pixel zero_display y x = Some 0.
Proof.
  intros Hy Hx. unfold pixel, index, zero_display.
  rewrite lookup_replicate_2 by lia. cbn [mbind option_bind].
  apply lookup_replicate_2. lia.
Qed.

(** X7. Every opcode whose top digit is 0, and not 00E0 alone, clears the
    display: afterwards every cell reads 0; the program counter is advanced by
    2 and no other field changes. *)
Theorem Cycle_0NNN_clears chip opcode :
  wf chip → 0 <= opcode < 0x1000 → fetch chip = Some opcode →
  ∃ chip', Cycle chip = Some (chip', []) ∧
    (∀ y x, 0 <= y < 32 → 0 <= x < 64 → pixel (display chip') y x = Some 0) ∧
    chip' = set_program_counter (program_counter chip + 2)
              (set_display (display chip') chip).
Proof.
  intros Hwf Hop Hf.
  assert (GetNibbles opcode 12 0xF000 = 0) as E
    by (rewrite nibble_1; Z.to_euclidean_division_equations; lia).
  rewrite (Cycle_fetch _ _ Hf), (execute_0 _ _ E).
  cbn [program_counter set_display]. rewrite (fetch_advance _ _ Hwf Hf).
  eexists. split; [reflexivity|]. cbn [display set_program_counter set_display].
  split; [exact pixel_zero_display|reflexivity].
Qed.

Lemma Cycle_0NNN_clears_witness :
  wf (ran [0xA2; 0x06; 0xD0; 0x01; 0x01; 0x23; 0xFF] 2) ∧ 0 <= 0x0123 < 0x1000 ∧
  fetch (ran [0xA2; 0x06; 0xD0; 0x01; 0x01; 0x23; 0xFF] 2) = Some 0x0123 ∧
  pixel (display (ran [0xA2; 0x06; 0xD0; 0x01; 0x01; 0x23; 0xFF] 2)) 0 0 = Some 1 ∧
  ∃ chip', Cycle (ran [0xA2; 0x06; 0xD0; 0x01; 0x01; 0x23; 0xFF] 2) = Some (chip', []) ∧
    (∀ y x, 0 <= y < 32 → 0 <= x < 64 → pixel (display chip') y x = Some 0) ∧
    chip' = set_program_counter
              (program_counter (ran [0xA2; 0x06; 0xD0; 0x01; 0x01; 0x23; 0xFF] 2) + 2)
              (set_display (display chip')
                 (ran [0xA2; 0x06; 0xD0; 0x01; 0x01; 0x23; 0xFF] 2)).
Proof.
  split; [apply wf_decide; vm_compute; reflexivity|].
  split; [lia|]. split; [vm_compute; reflexivity|].
  split; [vm_compute; reflexivity|].
  apply (Cycle_0NNN_clears (ran [0xA2; 0x06; 0xD0; 0x01; 0x01; 0x23; 0xFF] 2) 0x0123);
    [apply wf_decide; vm_compute; reflexivity|lia|vm_compute; reflexivity].
Defined.

(** ** What is never written *)

(** X8. No cycle writes the memory, the stack, the timers or the keypad:
    whatever the instruction, these fields come back as they went in. *)
Theorem Cycle_never_writes chip chip' out :
  Cycle chip = Some (chip', out) →
  memory chip' = memory chip ∧ stack chip' = stack chip ∧
  delay_timer chip' = delay_timer chip ∧ sound_timer chip' = sound_timer chip ∧
  keypad chip' = keypad chip.
Proof.
  unfold Cycle. destruct (fetch chip) as [opcode|]; [|done].
  cbn [mbind option_bind]. intros H.
  apply execute_frame in H as (? & ? & ? & ? & ? & _). auto.
Qed.

Lemma Cycle_never_writes_witness :
  Cycle (ran sprite_twice 3) = Some (ran sprite_twice 4, []) ∧
  memory (ran sprite_twice 4) = memory (ran sprite_twice 3) ∧
  stack (ran sprite_twice 4) = stack (ran sprite_twice 3) ∧
  delay_timer (ran sprite_twice 4) = delay_timer (ran sprite_twice 3) ∧
  sound_timer (ran sprite_twice 4) = sound_timer (ran sprite_twice 3) ∧
  keypad (ran sprite_twice 4) = keypad (ran sprite_twice 3).
Proof.
  split; [vm_compute; reflexivity|].
  apply (Cycle_never_writes (ran sprite_twice 3) (ran sprite_twice 4) []).
  vm_compute. reflexivity.
Defined.

(** [LoadROM] writes the memory only. *)
Lemma LoadROM_only_memory chip file chip' ok out :
  LoadROM chip file = Some (chip', ok, out) →
  chip' = set_memory (memory chip') chip.
Proof.
  intros H. destruct file as [data|].
  - unfold LoadROM in H. destruct (_ >=? _).
    + injection H as <- <- <-. by destruct chip.
    + destruct (load_bytes _ _ _) as [mem|]; [|done].
      cbn [mbind option_bind] in H. by injection H as <- <- <-.
  - simpl in H. injection H as <- <- <-. by destruct chip.
Qed.

(** X9. In every state the machine can reach, the stack and the keypad are
    all zero and both timers are 0: nothing in the code pushes a return
    address, decrements a timer or records a key. *)
Theorem reachable_stack_timers_keypad chip :
  reachable chip →
  stack chip = replicate 16 0 ∧ delay_timer chip = 0 ∧ sound_timer chip = 0 ∧
  keypad chip = replicate 16 0.
Proof.
  induction 1 as [chip H|chip file chip' ok out _ IH Hb H|chip chip' out _ IH H].
  - rewrite NewChip_returns in H. by injection H as <-.
  - rewrite (LoadROM_only_memory _ _ _ _ _ H). exact IH.
  - unfold Cycle in H. destruct (fetch chip) as [opcode|]; [|done].
    cbn [mbind option_bind] in H.
    apply execute_frame in H as (_ & -> & -> & -> & -> & _). exact IH.
Qed.

Lemma reachable_ran_sprite_twice_5 : reachable (ran sprite_twice 5).
Proof.
  assert (Forall is_u8 sprite_twice) as Hb by decide_closed.
  assert (reachable (booted sprite_twice)) as H0.
  { apply (reachable_load initial_chip (Some sprite_twice) _ true []);
      [apply reachable_new, NewChip_returns|exact Hb|vm_compute; reflexivity]. }
  assert (reachable (ran sprite_twice 1)) as H1
    by (apply (reachable_cycle _ _ [] H0); vm_compute; reflexivity).
  assert (reachable (ran sprite_twice 2)) as H2
    by (apply (reachable_cycle _ _ [] H1); vm_compute; reflexivity).
  assert (reachable (ran sprite_twice 3)) as H3
    by (apply (reachable_cycle _ _ [] H2); vm_compute; reflexivity).
  assert (reachable (ran sprite_twice 4)) as H4
    by (apply (reachable_cycle _ _ [] H3); vm_compute; reflexivity).
  apply (reachable_cycle _ _ [] H4). vm_compute. reflexivity.
Defined.

Lemma reachable_stack_timers_keypad_witness :
  reachable (ran sprite_twice 5) ∧
  stack (ran sprite_twice 5) = replicate 16 0 ∧
  delay_timer (ran sprite_twice 5) = 0 ∧ sound_timer (ran sprite_twice 5) = 0 ∧
  keypad (ran sprite_twice 5) = replicate 16 0.
Proof.
  split; [exact reachable_ran_sprite_twice_5|].
  apply (reachable_stack_timers_keypad (ran sprite_twice 5)).
  exact reachable_ran_sprite_twice_5.
Defined.

(** X10. 6XNN and 7XNN write register X and the program counter and nothing
    else: every other register, the index register and the display are as
    before, and nothing is printed. *)
Theorem Cycle_6XNN_7XNN_frame chip opcode chip' out :
  fetch chip = Some opcode →
  GetNibbles opcode 12 0xF000 = 6 ∨ GetNibbles opcode 12 0xF000 = 7 →
  Cycle chip = Some (chip', out) →
  (∀ R, 0 <= R → R ≠ GetNibbles opcode 8 0x0F00 →
        index (registers chip') R = index (registers chip) R) ∧
  index_register chip' = index_register chip ∧
  display chip' = display chip ∧ out = [].
Proof.
  intros Hf E H. rewrite (Cycle_fetch _ _ Hf) in H.
  pose proof (nibble_X_range opcode) as [HX _].
  destruct E as [E|E].
  - rewrite (execute_6 _ _ E) in H.
    destruct (store (registers chip) _ _) as [regs|] eqn:Hs; [|done].
    injection H as <- <-. cbn. repeat split.
    intros R HR Hne. eapply index_store_ne; [exact HX|exact HR| |exact Hs]. done.
  - rewrite (execute_7 _ _ E) in H.
    destruct (index (registers chip) _) as [old|]; [|done].
    cbn [mbind option_bind] in H.
    destruct (store (registers chip) _ _) as [regs|] eqn:Hs; [|done].
    injection H as <- <-. cbn. repeat split.
    intros R HR Hne. eapply index_store_ne; [exact HX|exact HR| |exact Hs]. done.
Qed.

Lemma Cycle_6XNN_7XNN_frame_witness :
  fetch chip_7XNN = Some 0x732A ∧
  (GetNibbles 0x732A 12 0xF000 = 6 ∨ GetNibbles 0x732A 12 0xF000 = 7) ∧
  Cycle chip_7XNN = Some (ran [0x63; 0xF0; 0x73; 0x2A] 2, []) ∧
  (∀ R, 0 <= R → R ≠ GetNibbles 0x732A 8 0x0F00 →
        index (registers (ran [0x63; 0xF0; 0x73; 0x2A] 2)) R
        = index (registers chip_7XNN) R) ∧
  index_register (ran [0x63; 0xF0; 0x73; 0x2A] 2) = index_register chip_7XNN ∧
  display (ran [0x63; 0xF0; 0x73; 0x2A] 2) = display chip_7XNN ∧ [] = @nil string.
Proof.
  split; [vm_compute; reflexivity|].
  split; [right; vm_compute; reflexivity|].
  split; [vm_compute; reflexivity|].
  apply (Cycle_6XNN_7XNN_frame chip_7XNN 0x732A);
    [vm_compute; reflexivity|right; vm_compute; reflexivity|vm_compute; reflexivity].
Defined.

(** ** Running through zeroed memory *)

Lemma Cycles_add m : ∀ n chip,
  Cycles (m + n) chip =
    '(chip1, out1) ← Cycles m chip;
    '(chip2, out2) ← Cycles n chip1;
    Some (chip2, out1 ++ out2).
Proof.
  induction m as [|m IH]; intros n chip.
  - cbn [Cycles Nat.add mbind option_bind].
    destruct (Cycles n chip) as [[chip2 out2]|]; reflexivity.
  - cbn [Cycles Nat.add]. destruct (Cycle chip) as [[c o]|]; [|reflexivity].
    cbn [mbind option_bind]. rewrite IH.
    destruct (Cycles m c) as [[c1 o1]|]; [|reflexivity].
    cbn [mbind option_bind].
    destruct (Cycles n c1) as [[c2 o2]|]; [|reflexivity].
    cbn [mbind option_bind]. by rewrite app_assoc.
Qed.

(** The memory from the program counter on is all zero. *)
Lemma zero_from_index chip a :
  Forall (λ b, b = 0) (drop (Z.to_nat (program_counter chip)) (memory chip)) →
  length (memory chip) = 4096%nat →
  program_counter chip <= a < 4096 → index (memory chip) a = Some 0.
Proof.
  intros Hz Hlen Ha. unfold index.
  destruct (lookup_lt_is_Some_2 (memory chip) (Z.to_nat a)) as [b Hb]; [lia|].
  rewrite Hb. f_equal.
  apply (proj1 (Forall_lookup _ _) Hz (Z.to_nat a - Z.to_nat (program_counter chip))%nat).
  rewrite lookup_drop, <- Hb. f_equal. lia.
Qed.

(** A zero word is executed as an opcode of class 0. *)
Lemma Cycle_zero_word chip :
  wf chip →
  Forall (λ b, b = 0) (drop (Z.to_nat (program_counter chip)) (memory chip)) →
  program_counter chip + 2 <= 4096 →
  Cycle chip =
    Some (set_program_counter (program_counter chip + 2)
            (set_display zero_display chip), []).
Proof.
  intros Hwf Hz Hpc. pose proof (proj1 (wf_memory _ Hwf)) as Hlen.
  pose proof (wf_program_counter _ Hwf) as [Hpc0 _].
  assert (fetch chip = Some 0) as Hf.
  { unfold fetch.
    assert (u16 (program_counter chip + 1) = program_counter chip + 1) as ->
      by (apply Z.mod_small; lia).
    rewrite (zero_from_index chip (program_counter chip) Hz Hlen) by lia.
    rewrite (zero_from_index chip (program_counter chip + 1) Hz Hlen) by lia.
    reflexivity. }
  rewrite (Cycle_fetch _ _ Hf), (execute_0 chip 0) by reflexivity.
  cbn [program_counter set_display]. by rewrite (fetch_advance _ _ Hwf Hf).
Qed.

Lemma Cycles_zero_words n : ∀ chip,
  wf chip →
  Forall (λ b, b = 0) (drop (Z.to_nat (program_counter chip)) (memory chip)) →
  program_counter chip + 2 * Z.of_nat n <= 4096 →
  Cycles n chip =
    Some (set_program_counter (program_counter chip + 2 * Z.of_nat n)
            (set_display (match n with O => display chip | S _ => zero_display end)
               chip), []).
Proof.
  induction n as [|n IH]; intros chip Hwf Hz Hpc.
  - cbn [Cycles]. destruct chip. unfold set_program_counter, set_display.
    cbn. do 2 f_equal. f_equal. lia.
  - cbn [Cycles]. rewrite (Cycle_zero_word chip Hwf Hz) by lia.
    cbn [mbind option_bind].
    pose proof (wf_program_counter _ Hwf) as [Hpc0 _].
    rewrite IH.
    + cbn [mbind option_bind]. destruct chip, n;
        unfold set_program_counter, set_display; cbn; do 2 f_equal; f_equal; lia.
    + eapply Cycle_wf; [exact Hwf|]. apply (Cycle_zero_word chip Hwf Hz). lia.
    + cbn [program_counter memory set_program_counter set_display].
      replace (Z.to_nat (program_counter chip + 2))
        with (Z.to_nat (program_counter chip) + 2)%nat by lia.
      rewrite <- drop_drop. by apply Forall_drop.
    + cbn [program_counter set_program_counter]. lia.
Qed.

(** X11. A program that runs into zeroed memory does not stop there: zero
    words are executed as class-0 opcodes, so from a state whose memory is
    zero from the program counter on, each of the next [(4096 - pc) / 2]
    cycles clears the display and advances by 2, printing nothing, and the
    cycle after them panics in its fetch.  ([main] ignores the result of
    [LoadROM], so this is what a failed load runs into.) *)
Theorem Cycles_zero_memory_then_panic chip :
  wf chip →
  Forall (λ b, b = 0) (drop (Z.to_nat (program_counter chip)) (memory chip)) →
  2 <= 4096 - program_counter chip →
  let k := Z.to_nat ((4096 - program_counter chip) / 2) in
  Cycles k chip =
    Some (set_program_counter (program_counter chip + 2 * Z.of_nat k)
            (set_display zero_display chip), []) ∧
  Cycles (k + 1) chip = None.
Proof.
  intros Hwf Hz Hpc k.
  pose proof (wf_program_counter _ Hwf) as [Hpc0 _].
  assert (program_counter chip + 2 * Z.of_nat k <= 4096 ∧
          4095 <= program_counter chip + 2 * Z.of_nat k ∧ (0 < k)%nat) as (Hk1 & Hk2 & Hk3).
  { subst k. rewrite Z2Nat.id by (apply Z.div_pos; lia).
    split; [|split]; [| |apply Nat2Z.inj_lt; rewrite Z2Nat.id by (apply Z.div_pos; lia)];
      Z.to_euclidean_division_equations; lia. }
  assert (Cycles k chip =
            Some (set_program_counter (program_counter chip + 2 * Z.of_nat k)
                    (set_display zero_display chip), [])) as Hrun.
  { rewrite (Cycles_zero_words k chip Hwf Hz Hk1). by destruct k; [lia|]. }
  split; [exact Hrun|].
  rewrite Cycles_add, Hrun. cbn [mbind option_bind Cycles].
  rewrite Cycle_panics_past_memory; [reflexivity| |exact Hk2].
  assert (wf (set_display zero_display chip)) as Hwf'.
  { destruct Hwf. split; auto. apply zero_display_wf. }
  destruct Hwf'. split; auto. cbn. unfold is_u16. lia.
Qed.

Lemma Cycles_zero_memory_then_panic_witness :
  NewChip = Some initial_chip ∧
  LoadROM initial_chip None = Some (initial_chip, false, [msg_could_not_read]) ∧
  wf initial_chip ∧
  Forall (λ b, b = 0)
    (drop (Z.to_nat (program_counter initial_chip)) (memory initial_chip)) ∧
  2 <= 4096 - program_counter initial_chip ∧
  Z.to_nat ((4096 - program_counter initial_chip) / 2) = 1792%nat ∧
  Cycles (Z.to_nat ((4096 - program_counter initial_chip) / 2)) initial_chip =
    Some (set_program_counter
            (program_counter initial_chip
             + 2 * Z.of_nat (Z.to_nat ((4096 - program_counter initial_chip) / 2)))
            (set_display zero_display initial_chip), []) ∧
  Cycles (Z.to_nat ((4096 - program_counter initial_chip) / 2) + 1) initial_chip = None.
Proof.
  split; [exact NewChip_returns|].
  split; [reflexivity|].
  split; [apply wf_decide; vm_compute; reflexivity|].
  split; [decide_closed|].
  split; [vm_compute; discriminate|].
  split; [vm_compute; reflexivity|].
  apply (Cycles_zero_memory_then_panic initial_chip);
    [apply wf_decide; vm_compute; reflexivity|decide_closed|vm_compute; discriminate].
Defined.

(** ** [LoadROM] and [NewChip] *)

(** X12. [LoadROM] never panics and writes nothing but the memory. It
    returns [false] exactly when the file could not be read or
    [program_counter + len >= 4096]; then the state is unchanged and one line
    is printed; on [true] nothing is printed. *)
Theorem LoadROM_outcome chip file :
  wf chip →
  ∃ chip' ok out, LoadROM chip file = Some (chip', ok, out) ∧
    chip' = set_memory (memory chip') chip ∧
    (ok = false ↔
       file = None ∨
       ∃ data, file = Some data ∧
               4096 <= program_counter chip + Z.of_nat (length data)) ∧
    (ok = false → chip' = chip ∧ length out = 1%nat) ∧
    (ok = true → out = []).
Proof.
  intros Hwf. destruct file as [data|].
  - destruct (Z_lt_le_dec (program_counter chip + Z.of_nat (length data)) 4096)
      as [Hlt|Hge].
    + destruct (LoadROM_fits chip Hwf data Hlt) as (mem' & H & _).
      exists (set_memory mem' chip), true, []. split; [exact H|].
      split; [reflexivity|]. split; [|split; [done|done]].
      split; [done|]. intros [|(d & [= <-] & Hd)]; [done|lia].
    + exists chip, false, [msg_too_big].
      split; [exact (LoadROM_too_big chip Hwf data Hge)|].
      split; [by destruct chip|]. split; [|split; [done|done]].
      split; [|done]. intros _. right. by exists data.
  - exists chip, false, [msg_could_not_read]. split; [reflexivity|].
    split; [by destruct chip|]. split; [|split; [done|done]].
    split; [|done]. intros _. by left.
Qed.

Lemma LoadROM_outcome_witness :
  wf (ran [0x12; 0x34] 1) ∧
  ∃ chip' ok out,
    LoadROM (ran [0x12; 0x34] 1) (Some (replicate 3000 7)) = Some (chip', ok, out) ∧
    chip' = set_memory (memory chip') (ran [0x12; 0x34] 1) ∧
    (ok = false ↔
       Some (replicate 3000 7) = None ∨
       ∃ data, Some (replicate 3000 7) = Some data ∧
               4096 <= program_counter (ran [0x12; 0x34] 1) + Z.of_nat (length data)) ∧
    (ok = false → chip' = ran [0x12; 0x34] 1 ∧ length out = 1%nat) ∧
    (ok = true → out = []).
Proof.
  split; [apply wf_decide; vm_compute; reflexivity|].
  apply (LoadROM_outcome (ran [0x12; 0x34] 1) (Some (replicate 3000 7))).
  apply wf_decide; vm_compute; reflexivity.
Defined.

(** X13. What a successful load wrote can be read back: when
    [program_counter + len < 4096], [LoadROM] returns [true], byte [k] of the
    file is at address [program_counter + k], and every address outside
    [program_counter .. program_counter + len) holds what it held. *)
Theorem LoadROM_read_back chip data :
  wf chip → program_counter chip + Z.of_nat (length data) < 4096 →
  ∃ chip', LoadROM chip (Some data) = Some (chip', true, []) ∧
    (∀ k, 0 <= k < Z.of_nat (length data) →
          index (memory chip') (program_counter chip + k) = data !! Z.to_nat k) ∧
    (∀ a, 0 <= a →
          a < program_counter chip ∨
          program_counter chip + Z.of_nat (length data) <= a →
          index (memory chip') a = index (memory chip) a).
Proof.
  intros Hwf Hfit. pose proof (wf_program_counter _ Hwf) as [Hpc0 _].
  destruct (LoadROM_fits chip Hwf data Hfit) as (mem' & H & _ & Hlow & Hmid & Hhigh).
  exists (set_memory mem' chip). split; [exact H|]. cbn [memory set_memory].
  split.
  - intros k Hk. unfold index. rewrite <- Hmid by lia. f_equal. lia.
  - intros a Ha [Hlt|Hge]; unfold index; [apply Hlow|apply Hhigh]; lia.
Qed.

Lemma LoadROM_read_back_witness :
  wf (ran [0x12; 0x34] 1) ∧
  program_counter (ran [0x12; 0x34] 1) + Z.of_nat (length [0xAB; 0xCD; 0xEF]) < 4096 ∧
  ∃ chip', LoadROM (ran [0x12; 0x34] 1) (Some [0xAB; 0xCD; 0xEF]) = Some (chip', true, []) ∧
    (∀ k, 0 <= k < Z.of_nat (length [0xAB; 0xCD; 0xEF]) →
          index (memory chip') (program_counter (ran [0x12; 0x34] 1) + k)
          = [0xAB; 0xCD; 0xEF] !! Z.to_nat k) ∧
    (∀ a, 0 <= a →
          a < program_counter (ran [0x12; 0x34] 1) ∨
          program_counter (ran [0x12; 0x34] 1) + Z.of_nat (length [0xAB; 0xCD; 0xEF]) <= a →
          index (memory chip') a = index (memory (ran [0x12; 0x34] 1)) a).
Proof.
  split; [apply wf_decide; vm_compute; reflexivity|].
  split; [vm_compute; reflexivity|].
  apply (LoadROM_read_back (ran [0x12; 0x34] 1) [0xAB; 0xCD; 0xEF]);
    [apply wf_decide; vm_compute; reflexivity|vm_compute; reflexivity].
Defined.

(** X14. After [NewChip] and a load of a ROM of at least two bytes that
    fits, the program counter is 0x200 and the first fetch yields the first
    two bytes of the ROM as one big-endian word. *)
Theorem boot_then_fetch b0 b1 rest :
  Forall is_u8 (b0 :: b1 :: rest) →
  0x200 + Z.of_nat (length (b0 :: b1 :: rest)) < 4096 →
  ∃ chip, boot (b0 :: b1 :: rest) = Some chip ∧
          program_counter chip = 0x200 ∧
          fetch chip = Some (0x100 * b0 + b1).
Proof.
  intros Hb Hfit. unfold boot. rewrite NewChip_returns. cbn [mbind option_bind].
  destruct (LoadROM_fits initial_chip initial_chip_wf (b0 :: b1 :: rest) Hfit)
    as (mem' & H & Hlen & _ & Hmid & _).
  rewrite H. cbn [mbind option_bind].
  exists (set_memory mem' initial_chip). split; [reflexivity|].
  split; [reflexivity|].
  assert (wf (set_memory mem' initial_chip)) as Hwf
    by (eapply (LoadROM_wf initial_chip (Some (b0 :: b1 :: rest)));
        [apply initial_chip_wf|exact Hb|exact H]).
  apply (fetch_bytes _ b0 b1 Hwf).
  - exact (Hmid 0%nat ltac:(cbn [length]; lia)).
  - exact (Hmid 1%nat ltac:(cbn [length]; lia)).
Qed.

Lemma boot_then_fetch_witness :
  Forall is_u8 [0x60; 0x05; 0x61; 0x0A] ∧
  0x200 + Z.of_nat (length [0x60; 0x05; 0x61; 0x0A]) < 4096 ∧
  ∃ chip, boot [0x60; 0x05; 0x61; 0x0A] = Some chip ∧
          program_counter chip = 0x200 ∧
          fetch chip = Some (0x100 * 0x60 + 0x05).
Proof.
  split; [decide_closed|]. split; [vm_compute; reflexivity|].
  apply (boot_then_fetch 0x60 0x05 [0x61; 0x0A]);
    [decide_closed|vm_compute; reflexivity].
Defined.

(** X15. The empty file: [LoadROM] accepts it and changes nothing while the
    program counter is below 4096; once the program counter has reached 4096
    even the empty file is refused as too big. *)
Theorem LoadROM_empty_file chip :
  wf chip →
  (program_counter chip < 4096 → LoadROM chip (Some []) = Some (chip, true, [])) ∧
  (4096 <= program_counter chip →
   LoadROM chip (Some []) = Some (chip, false, [msg_too_big])).
Proof.
  intros Hwf. pose proof (proj1 (wf_memory _ Hwf)) as Hlen. split; intros Hpc.
  - unfold LoadROM. rewrite Hlen. cbn [length load_bytes mbind option_bind].
    destruct (Z.geb_spec (program_counter chip + Z.of_nat 0) (Z.of_nat 4096));
      [lia|]. by destruct chip.
  - apply (LoadROM_too_big chip Hwf []). cbn [length]. lia.
Qed.

Lemma LoadROM_empty_file_witness :
  wf (ran [0x1F; 0xFE] 2) ∧ program_counter (ran [0x1F; 0xFE] 2) = 4096 ∧
  (program_counter (ran [0x1F; 0xFE] 2) < 4096 →
   LoadROM (ran [0x1F; 0xFE] 2) (Some []) = Some (ran [0x1F; 0xFE] 2, true, [])) ∧
  (4096 <= program_counter (ran [0x1F; 0xFE] 2) →
   LoadROM (ran [0x1F; 0xFE] 2) (Some []) =
     Some (ran [0x1F; 0xFE] 2, false, [msg_too_big])).
Proof.
  split; [apply wf_decide; vm_compute; reflexivity|].
  split; [vm_compute; reflexivity|].
  apply (LoadROM_empty_file (ran [0x1F; 0xFE] 2)).
  apply wf_decide; vm_compute; reflexivity.
Defined.

(** X16. [NewChip] does not panic. The state it returns has the program
    counter at 0x200, the 80 fontset bytes at addresses 0..79 and zero in
    every other byte of the memory, and all registers, the index register,
    the stack, the timers, the display and the keypad zero. *)
Theorem NewChip_state :
  ∃ chip, NewChip = Some chip ∧ wf chip ∧
    program_counter chip = 0x200 ∧
    (∀ a, 0 <= a < 80 → index (memory chip) a = index fontset a) ∧
    (∀ a, 80 <= a < 4096 → index (memory chip) a = Some 0) ∧
    registers chip = replicate 16 0 ∧ index_register chip = 0 ∧
    stack chip = replicate 16 0 ∧ delay_timer chip = 0 ∧ sound_timer chip = 0 ∧
    (∀ y x, 0 <= y < 32 → 0 <= x < 64 → pixel (display chip) y x = Some 0) ∧
    keypad chip = replicate 16 0.
Proof.
  exists initial_chip. split; [exact NewChip_returns|].
  split; [exact initial_chip_wf|]. split; [reflexivity|].
  split; [|split; [|repeat split; exact pixel_zero_display]].
  - intros a Ha. unfold index. cbn [memory initial_chip].
    apply lookup_app_l. change (length fontset) with 80%nat. lia.
  - intros a Ha. unfold index. cbn [memory initial_chip].
    rewrite lookup_app_r by (change (length fontset) with 80%nat; lia).
    apply lookup_replicate_2. change (length fontset) with 80%nat. lia.
Qed.

(** ** DXYN in full *)

Lemma draw_row_test sb j d y x p :
  0 <= j < 8 → pixel d y x = Some p →
  (if Z.shiftr (Z.land sb (u8 (Z.shiftl 1 j))) j =? 1
   then row ← index d y; pixel ← index row x; Some (pixel =? 1)
   else Some false) = Some (Z.testbit sb j && (p =? 1)).
Proof.
  intros Hj Hp. rewrite sprite_bit by done. unfold pixel in Hp.
  destruct (Z.testbit sb j); cbn [Z.b2z Z.eqb Pos.eqb andb]; [|reflexivity].
  destruct (index d y) as [row|]; [|done]. cbn [mbind option_bind] in Hp |- *.
  by rewrite Hp.
Qed.

Lemma insert_VF_twice (r : list Z) : <[15%nat := 1]> (<[15%nat := 1]> r) = <[15%nat := 1]> r.
Proof. apply list_insert_insert_eq. Qed.

(** The inner loop, for any sprite byte, from a cell inside the display: it
    returns; the column ends at [min (x + n) 63]; every cell it visits is on
    afterwards, whatever the sprite bit; every other cell is as before; and
    the registers are as before, but for VF := 1 when there was a collision. *)
Lemma draw_row_spec n : ∀ sb x y d r,
  (n <= 8)%nat → wf_display d → wf_regs r → 0 <= x <= 63 → 0 <= y <= 31 →
  ∃ d' r', draw_row n sb x y d r = Some (d', r', Z.min (x + Z.of_nat n) 63) ∧
    wf_display d' ∧ wf_regs r' ∧
    (∀ k, 0 <= k < Z.of_nat n → x + k <= 63 → pixel d' y (x + k) = Some 1) ∧
    (∀ yy xx, 0 <= yy → 0 <= xx →
              ¬ (yy = y ∧ x <= xx < x + Z.of_nat n ∧ xx <= 63) →
              pixel d' yy xx = pixel d yy xx) ∧
    ((¬ row_collision (Z.of_nat n) sb x y d ∧ r' = r) ∨
     (row_collision (Z.of_nat n) sb x y d ∧ r' = <[15%nat := 1]> r)).
Proof.
  induction n as [|j' IH]; intros sb x y d r Hn Hd Hr Hx Hy.
  { exists d, r. cbn [draw_row]. replace (Z.min (x + Z.of_nat 0) 63) with x by lia.
    split; [reflexivity|]. split; [done|]. split; [done|].
    split; [intros; lia|]. split; [done|].
    left. split; [|done]. intros (k & Hk & _). lia. }
  cbn [draw_row].
  destruct (pixel_is_Some d y x Hd Hy Hx) as [p Hp].
  rewrite (draw_row_test sb (Z.of_nat j') d y x p) by (done || lia).
  cbn [mbind option_bind].
  assert (u8 (x + 1) = x + 1 ∨ (x >? 62) = true) as Hx1.
  { destruct (Z.gtb_spec x 62); [by right|left]. apply Z.mod_small. lia. }
  assert (row_collision (Z.of_nat (S j')) sb x y d ↔
          (Z.testbit sb (Z.of_nat j') = true ∧ p = 1) ∨
          ∃ k, 1 <= k < Z.of_nat (S j') ∧ x + k <= 63 ∧
               Z.testbit sb (Z.of_nat (S j') - 1 - k) = true ∧
               pixel d y (x + k) = Some 1) as Hsplit.
  { split.
    - intros (k & Hk & Hk' & Hb & Hon). destruct (decide (k = 0)) as [->|Hk0].
      + left. replace (Z.of_nat (S j') - 1 - 0) with (Z.of_nat j') in Hb by lia.
        rewrite Z.add_0_r in Hon. split; [done|congruence].
      + right. exists k. repeat split; auto; lia.
    - intros [[Hb ->]|(k & Hk & Hk' & Hb & Hon)].
      + exists 0. rewrite Z.add_0_r.
        replace (Z.of_nat (S j') - 1 - 0) with (Z.of_nat j') by lia.
        repeat split; auto; lia.
      + exists k. repeat split; auto; lia. }
  destruct (Z.testbit sb (Z.of_nat j') && (p =? 1)) eqn:Hc.
  - (* collision on this cell *)
    apply andb_true_iff in Hc as [Hb Hp1]. apply Z.eqb_eq in Hp1 as ->.
    pose proof Hr as [Hrl Hrf].
    rewrite (store_in_range r 15 1) by lia. cbn [mbind option_bind].
    change (Z.to_nat 15) with 15%nat.
    set (r1 := <[15%nat := 1]> r).
    assert (store r 15 1 = Some r1) as Hs by (by rewrite store_in_range by lia).
    assert (wf_regs r1) as Hr1 by (eapply store_wf_regs; [exact Hr| |exact Hs]; by compute).
    destruct (Z.gtb_spec x 62) as [Hedge|Hin].
    + exists d, r1. replace (Z.min (x + Z.of_nat (S j')) 63) with x by lia.
      split; [reflexivity|]. repeat split; auto; try apply Hd; try apply Hr1.
      * intros k Hk Hk'. by replace (x + k) with x by lia.
      * right. split; [|done]. apply Hsplit. by left.
    + destruct Hx1 as [->|?]; [|lia].
      destruct (IH (Z.land sb (u8 (Z.lnot (u8 (Z.shiftl 1 (Z.of_nat j'))))))
                  (x + 1) y d r1) as (d' & r' & Hrun & Hd' & Hr' & P1 & P2 & P3);
        [lia|done|done|lia|done|].
      exists d', r'. rewrite Hrun.
      replace (Z.min (x + 1 + Z.of_nat j') 63) with (Z.min (x + Z.of_nat (S j')) 63) by lia.
      split; [reflexivity|]. split; [done|]. split; [done|]. repeat split.
      * intros k Hk Hk'. destruct (decide (k = 0)) as [->|Hk0].
        -- rewrite Z.add_0_r, P2 by lia. done.
        -- replace (x + k) with (x + 1 + (k - 1)) by lia. apply P1; lia.
      * intros yy xx Hyy Hxx Hout. apply P2; [done..|]. lia.
      * right. split; [apply Hsplit; by left|].
        destruct P3 as [[_ ->]|[_ ->]]; [done|]. subst r1. apply insert_VF_twice.
  - (* no collision on this cell: it is set *)
    destruct (store2_in_range d y x 1 Hd Hy Hx) as [d1 Hd1].
    rewrite Hd1. cbn [mbind option_bind].
    assert (wf_display d1) as Hwd1
      by (eapply store2_wf_display; [exact Hd| |exact Hd1]; by compute).
    assert (¬ (Z.testbit sb (Z.of_nat j') = true ∧ p = 1)) as Hno.
    { intros [Hb ->]. rewrite Hb in Hc. done. }
    destruct (Z.gtb_spec x 62) as [Hedge|Hin].
    + exists d1, r. replace (Z.min (x + Z.of_nat (S j')) 63) with x by lia.
      split; [reflexivity|]. split; [done|]. split; [done|]. repeat split.
      * intros k Hk Hk'. replace (x + k) with x by lia. by eapply pixel_store2_eq.
      * intros yy xx Hyy Hxx Hout.
        eapply pixel_store2_ne; [| | | | |exact Hd1]; try lia.
        intros [= -> ->]. apply Hout. lia.
      * left. split; [|done]. rewrite Hsplit.
        intros [?|(k & Hk & Hk' & _)]; [done|lia].
    + destruct Hx1 as [->|?]; [|lia].
      destruct (IH sb (x + 1) y d1 r) as (d' & r' & Hrun & Hd' & Hr' & P1 & P2 & P3);
        [lia|done|done|lia|done|].
      exists d', r'. rewrite Hrun.
      replace (Z.min (x + 1 + Z.of_nat j') 63) with (Z.min (x + Z.of_nat (S j')) 63) by lia.
      split; [reflexivity|]. split; [done|]. split; [done|].
      assert (row_collision (Z.of_nat (S j')) sb x y d ↔
              row_collision (Z.of_nat j') sb (x + 1) y d1) as Hiff.
      { rewrite Hsplit. split.
        - intros [?|(k & Hk & Hk' & Hb & Hon)]; [done|].
          exists (k - 1). replace (x + 1 + (k - 1)) with (x + k) by lia.
          replace (Z.of_nat j' - 1 - (k - 1)) with (Z.of_nat (S j') - 1 - k) by lia.
          repeat split; auto; try lia.
          rewrite (pixel_store2_ne d y x 1 d1 y (x + k)); auto; try lia.
          intros [= ?]. lia.
        - intros (k & Hk & Hk' & Hb & Hon). right. exists (k + 1).
          replace (x + (k + 1)) with (x + 1 + k) by lia.
          replace (Z.of_nat (S j') - 1 - (k + 1)) with (Z.of_nat j' - 1 - k) by lia.
          repeat split; auto; try lia.
          rewrite <- (pixel_store2_ne d y x 1 d1 y (x + 1 + k)); auto; try lia.
          intros [= ?]. lia. }
      repeat split.
      * intros k Hk Hk'. destruct (decide (k = 0)) as [->|Hk0].
        -- rewrite Z.add_0_r, P2 by lia. by eapply pixel_store2_eq.
        -- replace (x + k) with (x + 1 + (k - 1)) by lia. apply P1; lia.
      * intros yy xx Hyy Hxx Hout. rewrite P2 by (done || lia).
        eapply pixel_store2_ne; [| | | | |exact Hd1]; try lia.
        intros [= -> ->]. apply Hout. lia.
      * destruct P3 as [[Hn' ->]|[Hc' ->]]; [left|right]; (split; [|done]);
          by rewrite Hiff.
Qed.

Lemma sprite_column_0 x : 0 <= x <= 63 → sprite_column x 0 = x.
Proof. unfold sprite_column. lia. Qed.

Lemma sprite_column_succ x m :
  0 <= x <= 63 → 0 <= m →
  sprite_column (Z.min (x + 8) 63) m = sprite_column x (m + 1).
Proof. unfold sprite_column. lia. Qed.

Lemma drawn_succ n y m :
  y + 1 <= 30 → drawn (Z.of_nat n) (y + 1) m → drawn (Z.of_nat (S n)) y (m + 1).
Proof. unfold drawn. lia. Qed.

Lemma drawn_pred n y m :
  drawn (Z.of_nat (S n)) y m → m ≠ 0 →
  y + 1 <= 30 ∧ drawn (Z.of_nat n) (y + 1) (m - 1).
Proof. unfold drawn. lia. Qed.

(** The outer loop, for any sprite, from a cell inside the display, when the
    sprite byte of every row it reaches is inside the memory. *)
Lemma draw_rows_spec n : ∀ i x y d r mem I,
  wf_display d → wf_regs r → 0 <= x <= 63 → 0 <= y <= 31 →
  0 <= i → i + Z.of_nat n <= 65536 →
  (∀ m, drawn (Z.of_nat n) y m → is_Some (index mem (u16 (I + (i + m))))) →
  ∃ d' r', draw_rows n i x y d r mem I = Some (d', r') ∧
    wf_display d' ∧ wf_regs r' ∧
    (∀ m k, drawn (Z.of_nat n) y m → 0 <= k < 8 → sprite_column x m + k <= 63 →
            pixel d' (y + m) (sprite_column x m + k) = Some 1) ∧
    (∀ yy xx, 0 <= yy → 0 <= xx → ¬ visited (Z.of_nat n) x y yy xx →
              pixel d' yy xx = pixel d yy xx) ∧
    ((¬ collision (Z.of_nat n) x y (I + i) mem d ∧ r' = r) ∨
     (collision (Z.of_nat n) x y (I + i) mem d ∧ r' = <[15%nat := 1]> r)).
Proof.
  induction n as [|n IH]; intros i x y d r mem I Hd Hr Hx Hy Hi Hin Hmem.
  { exists d, r. split; [reflexivity|]. split; [done|]. split; [done|].
    split; [intros m k [Hm _]; lia|]. split; [done|].
    left. split; [|done]. intros (m & sb & [Hm _] & _). lia. }
  cbn [draw_rows].
  assert (u16 i = i) as -> by (apply Z.mod_small; lia).
  assert (drawn (Z.of_nat (S n)) y 0) as Hdrawn0 by (unfold drawn; lia).
  destruct (Hmem 0 Hdrawn0) as [sb Hsb]. rewrite Z.add_0_r in Hsb.
  rewrite Hsb. cbn [mbind option_bind].
  destruct (draw_row_spec 8 sb x y d r) as (d1 & r1 & Hrow & Hd1 & Hr1 & P1 & P2 & P3);
    [lia|done..|].
  rewrite Hrow. cbn [mbind option_bind].
  change (Z.of_nat 8) with 8 in *.
  assert (u8 (y + 1) = y + 1) as -> by (apply Z.mod_small; lia).
  assert (row_collision 8 sb x y d → collision (Z.of_nat (S n)) x y (I + i) mem d) as HC0.
  { intros Hc. exists 0, sb. rewrite Z.add_0_r, sprite_column_0 by done.
    by rewrite Z.add_0_r. }
  destruct (Z.gtb_spec (y + 1) 30) as [Hlast|Hmore].
  - (* the loop breaks after this row *)
    assert (∀ m, drawn (Z.of_nat (S n)) y m → m = 0) as Honly by (unfold drawn; lia).
    exists d1, r1. split; [reflexivity|]. split; [done|]. split; [done|].
    split; [|split].
    + intros m k Hm Hk Hk'. rewrite (Honly m Hm) in *.
      rewrite Z.add_0_r, sprite_column_0 in * by done. by apply P1.
    + intros yy xx Hyy Hxx Hout. apply P2; [done..|].
      intros (-> & Hxx1 & Hxx2). apply Hout. exists 0.
      rewrite Z.add_0_r, sprite_column_0 by done. repeat split; auto; lia.
    + destruct P3 as [[Hn ->]|[Hc ->]]; [left|right]; (split; [|done]); [|by apply HC0].
      intros (m & sb' & Hm & Hsb' & Hc). rewrite (Honly m Hm) in *.
      rewrite Z.add_0_r, sprite_column_0 in Hc by done.
      rewrite Z.add_0_r in Hsb'. congruence.
  - (* one more row, from where this one stopped *)
    destruct (IH (i + 1) (Z.min (x + 8) 63) (y + 1) d1 r1 mem I)
      as (d' & r' & Hrun & Hd' & Hr' & Q1 & Q2 & Q3); [done|done|lia|lia|lia|lia| |].
    { intros m Hm. replace (i + 1 + m) with (i + (m + 1)) by lia.
      apply Hmem. by apply drawn_succ. }
    exists d', r'. split; [exact Hrun|]. split; [done|]. split; [done|].
    assert (∀ m, drawn (Z.of_nat n) (y + 1) m → 0 <= m) as Hm0 by (unfold drawn; lia).
    assert (∀ yy xx, visited (Z.of_nat n) (Z.min (x + 8) 63) (y + 1) yy xx →
                     visited (Z.of_nat (S n)) x y yy xx ∧ yy ≠ y) as Hvis.
    { intros yy xx (m & Hm & -> & Hcol & Hxx). split; [|specialize (Hm0 m Hm); lia].
      exists (m + 1). rewrite <- sprite_column_succ by (done || by apply Hm0).
      split; [by apply drawn_succ|]. repeat split; auto; lia. }
    assert (collision (Z.of_nat n) (Z.min (x + 8) 63) (y + 1) (I + (i + 1)) mem d1 ↔
            ∃ m sb', m ≠ 0 ∧ drawn (Z.of_nat (S n)) y m ∧
                     index mem (u16 (I + i + m)) = Some sb' ∧
                     row_collision 8 sb' (sprite_column x m) (y + m) d) as HC1.
    { split.
      - intros (m & sb' & Hm & Hsb' & (k & Hk & Hk' & Hb & Hon)).
        pose proof (Hm0 m Hm) as Hmm.
        exists (m + 1), sb'. split; [lia|]. split; [by apply drawn_succ|].
        split; [by replace (I + i + (m + 1)) with (I + (i + 1) + m) by lia|].
        rewrite <- sprite_column_succ by done. exists k.
        replace (y + (m + 1)) with (y + 1 + m) by lia.
        repeat split; auto; try lia.
        rewrite <- P2; [done|lia|unfold sprite_column; lia|lia].
      - intros (m & sb' & Hne & Hm & Hsb' & (k & Hk & Hk' & Hb & Hon)).
        destruct (drawn_pred _ _ _ Hm Hne) as [_ Hm'].
        pose proof (Hm0 _ Hm') as Hmm.
        exists (m - 1), sb'. split; [done|].
        split; [by replace (I + (i + 1) + (m - 1)) with (I + i + m) by lia|].
        rewrite sprite_column_succ by done.
        replace (m - 1 + 1) with m by lia. exists k.
        replace (y + 1 + (m - 1)) with (y + m) by lia.
        repeat split; auto; try lia.
        rewrite P2; [done|lia|unfold sprite_column; lia|lia]. }
    assert (collision (Z.of_nat (S n)) x y (I + i) mem d ↔
            row_collision 8 sb x y d ∨
            collision (Z.of_nat n) (Z.min (x + 8) 63) (y + 1) (I + (i + 1)) mem d1)
      as HC.
    { rewrite HC1. split.
      - intros (m & sb' & Hm & Hsb' & Hc). destruct (decide (m = 0)) as [->|Hne].
        + left. rewrite Z.add_0_r, sprite_column_0 in Hc by done.
          rewrite Z.add_0_r in Hsb'. congruence.
        + right. by exists m, sb'.
      - intros [Hc|(m & sb' & _ & Hm & Hsb' & Hc)]; [by apply HC0|by exists m, sb']. }
    split; [|split].
    + intros m k Hm Hk Hk'. destruct (decide (m = 0)) as [->|Hne].
      * rewrite Z.add_0_r, sprite_column_0 in * by done.
        rewrite Q2; [by apply P1|lia|lia|]. intros Hv. by destruct (Hvis _ _ Hv).
      * destruct (drawn_pred _ _ _ Hm Hne) as [_ Hm'].
        specialize (Q1 (m - 1) k Hm' Hk).
        rewrite sprite_column_succ in Q1 by (done || by apply Hm0).
        replace (m - 1 + 1) with m in Q1 by lia.
        replace (y + 1 + (m - 1)) with (y + m) in Q1 by lia. by apply Q1.
    + intros yy xx Hyy Hxx Hout.
      rewrite Q2; [|done|done|]; [|intros Hv; by destruct (Hvis _ _ Hv)].
      apply P2; [done..|]. intros (-> & Hxx1 & Hxx2). apply Hout. exists 0.
      rewrite Z.add_0_r, sprite_column_0 by done. repeat split; auto; lia.
    + rewrite HC.
      destruct P3 as [[Hn0 ->]|[Hc0 ->]], Q3 as [[Hn1 ->]|[Hc1 ->]].
      * left. split; [tauto|done].
      * right. split; [tauto|done].
      * right. split; [tauto|done].
      * right. split; [tauto|apply insert_VF_twice].
Qed.

(** The outer loop panics when a row it reaches has its sprite byte outside
    the memory. *)
Lemma draw_rows_panics n : ∀ i x y d r mem I,
  wf_display d → wf_regs r → 0 <= x <= 63 → 0 <= y <= 31 →
  0 <= i → i + Z.of_nat n <= 65536 →
  (∃ m, drawn (Z.of_nat n) y m ∧ index mem (u16 (I + (i + m))) = None) →
  draw_rows n i x y d r mem I = None.
Proof.
  induction n as [|n IH]; intros i x y d r mem I Hd Hr Hx Hy Hi Hin (m & Hm & Hnone).
  { destruct Hm as [Hm _]. lia. }
  cbn [draw_rows].
  assert (u16 i = i) as -> by (apply Z.mod_small; lia).
  destruct (index mem (u16 (I + i))) as [sb|] eqn:Hsb; [|reflexivity].
  cbn [mbind option_bind].
  destruct (draw_row_spec 8 sb x y d r) as (d1 & r1 & Hrow & Hd1 & Hr1 & _);
    [lia|done..|].
  rewrite Hrow. cbn [mbind option_bind].
  assert (u8 (y + 1) = y + 1) as -> by (apply Z.mod_small; lia).
  assert (m ≠ 0) as Hne.
  { intros ->. rewrite Z.add_0_r in Hnone. congruence. }
  destruct (drawn_pred _ _ _ Hm Hne) as [Hy1 Hm'].
  destruct (Z.gtb_spec (y + 1) 30) as [Hlast|Hmore]; [lia|].
  apply IH; [done|done|lia|lia|lia|lia|].
  exists (m - 1). split; [done|].
  by replace (i + 1 + (m - 1)) with (i + m) by lia.
Qed.

Section DXYN.
Variables (chip : Chip8) (opcode vx vy : Z).
Hypothesis Hwf : wf chip.
Hypothesis Hfetch : fetch chip = Some opcode.
Hypothesis Hclass : GetNibbles opcode 12 0xF000 = 13.
Hypothesis Hvx : index (registers chip) (GetNibbles opcode 8 0x0F00) = Some vx.
Hypothesis Hvy : index (registers chip) (GetNibbles opcode 4 0x00F0) = Some vy.

Let N := GetNibbles opcode 0 0x000F.
Let x0 := Z.land vx 63.
Let y0 := Z.land vy 31.

Lemma nibble_N_range : 0 <= N < 16.
Proof. subst N. rewrite nibble_N. apply Z.mod_pos_bound. lia. Qed.

Lemma Cycle_draw_unfold :
  Cycle chip =
    '(disp, regs) ← draw_rows (Z.to_nat N) 0 x0 y0 (display chip)
                       (<[15%nat := 0]> (registers chip)) (memory chip)
                       (index_register chip);
    Some (set_program_counter (program_counter chip + 2)
            (set_display disp (set_registers regs chip)), []).
Proof.
  rewrite (Cycle_fetch _ _ Hfetch), (execute_13 _ _ Hclass), Hvx, Hvy.
  cbn [mbind option_bind].
  rewrite (store_in_range (registers chip) 15 0)
    by (rewrite (proj1 (wf_registers _ Hwf)); lia).
  cbn [mbind option_bind]. by rewrite (fetch_advance _ _ Hwf Hfetch).
Qed.

(** A DXYN whose rows lie inside the memory, in full. *)
Lemma Cycle_draw_spec :
  (∀ m, drawn N y0 m → u16 (index_register chip + m) < 4096) →
  ∃ disp regs,
    Cycle chip =
      Some (set_program_counter (program_counter chip + 2)
              (set_display disp (set_registers regs chip)), []) ∧
    (∀ m k, drawn N y0 m → 0 <= k < 8 → sprite_column x0 m + k <= 63 →
            pixel disp (y0 + m) (sprite_column x0 m + k) = Some 1) ∧
    (∀ yy xx, 0 <= yy → 0 <= xx → ¬ visited N x0 y0 yy xx →
              pixel disp yy xx = pixel (display chip) yy xx) ∧
    ((¬ collision N x0 y0 (index_register chip) (memory chip) (display chip) ∧
      regs = <[15%nat := 0]> (registers chip)) ∨
     (collision N x0 y0 (index_register chip) (memory chip) (display chip) ∧
      regs = <[15%nat := 1]> (registers chip))).
Proof.
  intros Hrows. pose proof nibble_N_range as HN.
  pose proof (wf_registers _ Hwf) as Hr.
  assert (wf_regs (<[15%nat := 0]> (registers chip))) as Hr0.
  { eapply (store_wf_regs _ 15 0); [exact Hr|by compute|].
    apply store_in_range. rewrite (proj1 Hr). lia. }
  destruct (draw_rows_spec (Z.to_nat N) 0 x0 y0 (display chip)
              (<[15%nat := 0]> (registers chip)) (memory chip) (index_register chip))
    as (d' & r' & Hrun & _ & _ & P1 & P2 & P3);
    [apply (wf_disp _ Hwf)|exact Hr0|apply land_63_range|apply land_31_range
    |lia|lia| |].
  { intros m Hm. rewrite Z2Nat.id in Hm by lia. rewrite Z.add_0_l.
    apply index_is_Some. rewrite (proj1 (wf_memory _ Hwf)).
    pose proof (Hrows m Hm). pose proof (Z.mod_pos_bound (index_register chip + m) 65536).
    unfold u16 in *. lia. }
  rewrite Z2Nat.id, Z.add_0_r in * by lia.
  exists d', r'. rewrite Cycle_draw_unfold, Hrun. cbn [mbind option_bind].
  split; [reflexivity|]. split; [exact P1|]. split; [exact P2|].
  destruct P3 as [[Hn ->]|[Hc ->]]; [by left|right].
  split; [done|]. apply list_insert_insert_eq.
Qed.

(** A DXYN panics when a row it reaches has its byte outside the memory. *)
Lemma Cycle_draw_panics :
  (∃ m, drawn N y0 m ∧ 4096 <= u16 (index_register chip + m)) → Cycle chip = None.
Proof.
  intros (m & Hm & Hout). pose proof nibble_N_range as HN.
  pose proof (wf_registers _ Hwf) as Hr.
  assert (wf_regs (<[15%nat := 0]> (registers chip))) as Hr0.
  { eapply (store_wf_regs _ 15 0); [exact Hr|by compute|].
    apply store_in_range. rewrite (proj1 Hr). lia. }
  rewrite Cycle_draw_unfold.
  rewrite draw_rows_panics; [reflexivity|apply (wf_disp _ Hwf)|exact Hr0
    |apply land_63_range|apply land_31_range|lia|lia|].
  exists m. rewrite Z2Nat.id by lia. split; [done|]. rewrite Z.add_0_l.
  unfold index. apply lookup_ge_None_2. rewrite (proj1 (wf_memory _ Hwf)).
  pose proof (Z.mod_pos_bound (index_register chip + m) 65536). unfold u16 in *. lia.
Qed.

End DXYN.

Lemma rows_in_memory I N y0 m :
  0 <= I → I + N <= 4096 → drawn N y0 m → u16 (I + m) < 4096.
Proof.
  intros HI HN [Hm _]. unfold u16. rewrite Z.mod_small; lia.
Qed.

Lemma register_is_Some chip R :
  wf chip → 0 <= R < 16 → is_Some (index (registers chip) R).
Proof.
  intros Hwf HR. apply index_is_Some. rewrite (proj1 (wf_registers _ Hwf)). lia.
Qed.

(** X17. A DXYN whose sprite bytes lie inside the memory returns, and
    afterwards every cell it visited is on, whatever the sprite bytes are.
    Row [m] of the sprite is on display row [y0 + m] and starts at column
    [min (x0 + 8 m) 63], the column not being reset between rows; it is at most
    eight cells wide and stops at column 63; a row after the first is drawn
    only while [y0 + m <= 30]. *)
Theorem Cycle_DXYN_paints chip opcode vx vy :
  wf chip → fetch chip = Some opcode → GetNibbles opcode 12 0xF000 = 13 →
  index (registers chip) (GetNibbles opcode 8 0x0F00) = Some vx →
  index (registers chip) (GetNibbles opcode 4 0x00F0) = Some vy →
  index_register chip + GetNibbles opcode 0 0x000F <= 4096 →
  ∃ chip', Cycle chip = Some (chip', []) ∧
    ∀ m k, drawn (GetNibbles opcode 0 0x000F) (Z.land vy 31) m → 0 <= k < 8 →
           sprite_column (Z.land vx 63) m + k <= 63 →
           pixel (display chip') (Z.land vy 31 + m)
                 (sprite_column (Z.land vx 63) m + k) = Some 1.
Proof.
  intros Hwf Hf E Hvx Hvy HI.
  destruct (Cycle_draw_spec chip opcode vx vy Hwf Hf E Hvx Hvy)
    as (disp & regs & -> & P1 & _).
  { intros m. apply rows_in_memory; [apply (wf_index_register _ Hwf)|done]. }
  eexists. split; [reflexivity|]. exact P1.
Qed.

Lemma Cycle_DXYN_paints_witness :
  wf chip_before_sprite ∧ fetch chip_before_sprite = Some 0xD013 ∧
  GetNibbles 0xD013 12 0xF000 = 13 ∧
  index (registers chip_before_sprite) (GetNibbles 0xD013 8 0x0F00) = Some 58 ∧
  index (registers chip_before_sprite) (GetNibbles 0xD013 4 0x00F0) = Some 29 ∧
  index_register chip_before_sprite + GetNibbles 0xD013 0 0x000F <= 4096 ∧
  ∃ chip', Cycle chip_before_sprite = Some (chip', []) ∧
    ∀ m k, drawn (GetNibbles 0xD013 0 0x000F) (Z.land 29 31) m → 0 <= k < 8 →
           sprite_column (Z.land 58 63) m + k <= 63 →
           pixel (display chip') (Z.land 29 31 + m)
                 (sprite_column (Z.land 58 63) m + k) = Some 1.
Proof.
  split; [apply wf_decide; vm_compute; reflexivity|].
  split; [vm_compute; reflexivity|]. split; [vm_compute; reflexivity|].
  split; [vm_compute; reflexivity|]. split; [vm_compute; reflexivity|].
  split; [vm_compute; discriminate|].
  apply (Cycle_DXYN_paints chip_before_sprite 0xD013 58 29);
    [apply wf_decide; vm_compute; reflexivity|vm_compute; reflexivity
    |vm_compute; reflexivity|vm_compute; reflexivity|vm_compute; reflexivity
    |vm_compute; discriminate].
Defined.







(** Whether some row a DXYN reaches has its byte outside the memory can be
    decided by looking at the rows one by one. *)
Lemma rows_outside_dec N y0 I :
  (∃ m, drawn N y0 m ∧ 4096 <= u16 (I + m)) ∨
  (∀ m, drawn N y0 m → u16 (I + m) < 4096).
Proof.
  assert (∀ n : nat,
    (∃ m, (0 <= m < Z.of_nat n ∧ drawn N y0 m) ∧ 4096 <= u16 (I + m)) ∨
    (∀ m, 0 <= m < Z.of_nat n → drawn N y0 m → u16 (I + m) < 4096)) as Hscan.
  { induction n as [|n [(m & [Hm Hd] & Hout)|Hall]].
    - right. intros m Hm. lia.
    - left. exists m. split; [split; [lia|done]|done].
    - assert (Decision (drawn N y0 (Z.of_nat n) ∧ 4096 <= u16 (I + Z.of_nat n)))
        as [[Hd Hout]|Hno] by (unfold drawn; apply _).
      + left. exists (Z.of_nat n). split; [split; [lia|done]|done].
      + right. intros m Hm Hd. destruct (decide (m = Z.of_nat n)) as [->|Hne].
        * destruct (Z_lt_le_dec (u16 (I + Z.of_nat n)) 4096); [done|tauto].
        * apply Hall; [lia|done]. }
  destruct (Hscan (Z.to_nat N)) as [(m & [_ Hd] & Hout)|Hall].
  - left. by exists m.
  - right. intros m Hd. apply Hall; [|done]. destruct Hd as [Hm _]. lia.
Qed.

(** X21. The only panics of [Cycle]: it panics exactly when the fetch is out
    of range (program counter 4095 or more) or the instruction is a DXYN one
    of whose reached rows has its sprite byte at an address of 4096 or more.
    Register and display indexing never panic. *)
Theorem Cycle_panics_iff chip :
  wf chip →
  (Cycle chip = None ↔
   4095 <= program_counter chip ∨
   ∃ opcode vy m,
     fetch chip = Some opcode ∧ GetNibbles opcode 12 0xF000 = 13 ∧
     index (registers chip) (GetNibbles opcode 4 0x00F0) = Some vy ∧
     drawn (GetNibbles opcode 0 0x000F) (Z.land vy 31) m ∧
     4096 <= u16 (index_register chip + m)).
Proof.
  intros Hwf. split.
  - intros Hnone.
    destruct (Z_lt_le_dec (program_counter chip) 4095) as [Hlt|]; [|by left].
    right. destruct (fetch_in_range chip Hwf Hlt) as [opcode Hf].
    destruct (register_is_Some chip _ Hwf (nibble_X_range opcode)) as [vx Hvx].
    destruct (register_is_Some chip _ Hwf (nibble_Y_range opcode)) as [vy Hvy].
    pose proof (proj1 (wf_registers _ Hwf)) as Hlen.
    pose proof (nibble_X_range opcode) as HX.
    destruct (decide (GetNibbles opcode 12 0xF000 ∈ implemented)) as [Hin|Hout].
    + rewrite (Cycle_fetch _ _ Hf) in Hnone.
      apply implemented_cases in Hin as [E|[E|[E|[E|[E|E]]]]].
      * by rewrite (execute_0 _ _ E) in Hnone.
      * by rewrite (execute_1 _ _ E) in Hnone.
      * rewrite (execute_6 _ _ E), store_in_range in Hnone by lia. done.
      * rewrite (execute_7 _ _ E), Hvx in Hnone. cbn [mbind option_bind] in Hnone.
        rewrite store_in_range in Hnone by lia. done.
      * by rewrite (execute_10 _ _ E) in Hnone.
      * destruct (rows_outside_dec (GetNibbles opcode 0 0x000F) (Z.land vy 31)
                    (index_register chip)) as [(m & Hd & Hm)|Hall].
        -- by exists opcode, vy, m.
        -- destruct (Cycle_draw_spec chip opcode vx vy Hwf Hf E Hvx Hvy Hall)
             as (disp & regs & Hc & _).
           rewrite (Cycle_fetch _ _ Hf) in Hc. congruence.
    + rewrite (Cycle_fetch _ _ Hf), (execute_default _ _ Hout) in Hnone. done.
  - intros [Hpc|(opcode & vy & m & Hf & E & Hvy & Hd & Hm)].
    + by apply Cycle_panics_past_memory.
    + destruct (register_is_Some chip _ Hwf (nibble_X_range opcode)) as [vx Hvx].
      apply (Cycle_draw_panics chip opcode vx vy Hwf Hf E Hvx Hvy). by exists m.
Qed.

Lemma Cycle_panics_iff_witness :
  wf chip_sprite_past_memory ∧
  fetch chip_sprite_past_memory = Some 0xD002 ∧
  index_register chip_sprite_past_memory = 0xFFF ∧
  (Cycle chip_sprite_past_memory = None ↔
   4095 <= program_counter chip_sprite_past_memory ∨
   ∃ opcode vy m,
     fetch chip_sprite_past_memory = Some opcode ∧ GetNibbles opcode 12 0xF000 = 13 ∧
     index (registers chip_sprite_past_memory) (GetNibbles opcode 4 0x00F0) = Some vy ∧
     drawn (GetNibbles opcode 0 0x000F) (Z.land vy 31) m ∧
     4096 <= u16 (index_register chip_sprite_past_memory + m)).
Proof.
  split; [apply wf_decide; vm_compute; reflexivity|].
  split; [vm_compute; reflexivity|]. split; [vm_compute; reflexivity|].
  apply (Cycle_panics_iff chip_sprite_past_memory).
  apply wf_decide; vm_compute; reflexivity.
Defined.

(** X22. DXY0 draws nothing and reads no sprite byte: it returns whatever the
    index register holds, leaves the display as it was and sets VF to 0. *)
Theorem Cycle_DXY0 chip opcode :
  wf chip → fetch chip = Some opcode → GetNibbles opcode 12 0xF000 = 13 →
  GetNibbles opcode 0 0x000F = 0 →
  Cycle chip =
    Some (set_program_counter (program_counter chip + 2)
            (set_display (display chip)
               (set_registers (<[15%nat := 0]> (registers chip)) chip)), []).
Proof.
  intros Hwf Hf E HN.
  destruct (register_is_Some chip _ Hwf (nibble_X_range opcode)) as [vx Hvx].
  destruct (register_is_Some chip _ Hwf (nibble_Y_range opcode)) as [vy Hvy].
  rewrite (Cycle_draw_unfold chip opcode vx vy Hwf Hf E Hvx Hvy), HN.
  reflexivity.
Qed.

Lemma Cycle_DXY0_witness :
  wf (ran [0xAF; 0xFF; 0xD0; 0x00] 1) ∧
  fetch (ran [0xAF; 0xFF; 0xD0; 0x00] 1) = Some 0xD000 ∧
  GetNibbles 0xD000 12 0xF000 = 13 ∧ GetNibbles 0xD000 0 0x000F = 0 ∧
  Cycle (ran [0xAF; 0xFF; 0xD0; 0x00] 1) =
    Some (set_program_counter (program_counter (ran [0xAF; 0xFF; 0xD0; 0x00] 1) + 2)
            (set_display (display (ran [0xAF; 0xFF; 0xD0; 0x00] 1))
               (set_registers
                  (<[15%nat := 0]> (registers (ran [0xAF; 0xFF; 0xD0; 0x00] 1)))
                  (ran [0xAF; 0xFF; 0xD0; 0x00] 1))), []).
Proof.
  split; [apply wf_decide; vm_compute; reflexivity|].
  split; [vm_compute; reflexivity|]. split; [vm_compute; reflexivity|].
  split; [vm_compute; reflexivity|].
  apply (Cycle_DXY0 (ran [0xAF; 0xFF; 0xD0; 0x00] 1) 0xD000);
    [apply wf_decide; vm_compute; reflexivity|vm_compute; reflexivity
    |vm_compute; reflexivity|vm_compute; reflexivity].
Defined.

(** ** Drawing twice, and what every reachable state satisfies *)




Lemma store2_cells (P : Z → Prop) d y x v d' :
  Forall (Forall P) d → P v → store2 d y x v = Some d' → Forall (Forall P) d'.
Proof.
  intros Hd Hv H. unfold store2 in H.
  destruct (index d y) as [row|] eqn:Hrow; [|done]. cbn [mbind option_bind] in H.
  destruct (store row x v) as [row'|] eqn:Hrow'; [|done].
  cbn [mbind option_bind] in H.
  eapply store_Forall; [exact Hd| |exact H].
  eapply store_Forall; [|exact Hv|exact Hrow'].
  unfold index in Hrow. by eapply (Forall_lookup_1 _ _ _ _ Hd).
Qed.

Lemma draw_row_cells (P : Z → Prop) n : ∀ sb x y d r d' r' x',
  P 1 → Forall (Forall P) d →
  draw_row n sb x y d r = Some (d', r', x') → Forall (Forall P) d'.
Proof.
  induction n as [|j IH]; intros sb x y d r d' r' x' H1 Hd H; simpl in H.
  - by injection H as <- <- <-.
  - match type of H with (?m ≫= _) = _ => destruct m as [collide|] end; [|done].
    simpl in H. destruct collide.
    + destruct (store r 15 1) as [r1|]; [|done]. simpl in H.
      destruct (x >? 62); [by injection H as <- <- <-|]. by eapply IH.
    + destruct (store2 d y x 1) as [d1|] eqn:Hd1; [|done]. simpl in H.
      assert (Forall (Forall P) d1) by (by eapply store2_cells).
      destruct (x >? 62); [by injection H as <- <- <-|]. by eapply IH.
Qed.

Lemma draw_rows_cells (P : Z → Prop) n : ∀ i x y d r mem I d' r',
  P 1 → Forall (Forall P) d →
  draw_rows n i x y d r mem I = Some (d', r') → Forall (Forall P) d'.
Proof.
  induction n as [|n IH]; intros i x y d r mem I d' r' H1 Hd H;
    cbn [draw_rows] in H.
  - by injection H as <- <-.
  - destruct (index mem (u16 (I + u16 i))) as [sb|]; [|done].
    cbn [mbind option_bind] in H.
    destruct (draw_row 8 sb x y d r) as [[[d1 r1] x1]|] eqn:Hrow; [|done].
    apply (draw_row_cells P) in Hrow; [|done..].
    cbn [mbind option_bind] in H.
    destruct (u8 (y + 1) >? 30); [by injection H as <- <-|]. by eapply IH.
Qed.

Lemma zero_display_bits : display_bits zero_display.
Proof. apply Forall_replicate, Forall_replicate. by left. Qed.

Lemma execute_display_index chip opcode chip' out :
  execute chip opcode = Some (chip', out) →
  (display_bits (display chip) → display_bits (display chip')) ∧
  (index_register chip' = index_register chip ∨
   index_register chip' = u16 (GetNibbles opcode 0 0x0FFF)).
Proof.
  intros H.
  destruct (decide (GetNibbles opcode 12 0xF000 ∈ implemented)) as [Hin|Hout].
  - apply implemented_cases in Hin as [E|[E|[E|[E|[E|E]]]]].
    + rewrite (execute_0 _ _ E) in H. injection H as <- <-. cbn [display index_register program_counter set_program_counter set_display set_registers set_index_register].
      split; [|by left]. intros _. exact zero_display_bits.
    + rewrite (execute_1 _ _ E) in H. injection H as <- <-. cbn [display index_register program_counter set_program_counter set_display set_registers set_index_register]. auto.
    + rewrite (execute_6 _ _ E) in H.
      destruct (store (registers chip) _ _) as [regs|]; [|done].
      injection H as <- <-. cbn [display index_register program_counter set_program_counter set_display set_registers set_index_register]. auto.
    + rewrite (execute_7 _ _ E) in H.
      destruct (index (registers chip) _) as [old|]; [|done].
      cbn [mbind option_bind] in H.
      destruct (store (registers chip) _ _) as [regs|]; [|done].
      injection H as <- <-. cbn [display index_register program_counter set_program_counter set_display set_registers set_index_register]. auto.
    + rewrite (execute_10 _ _ E) in H. injection H as <- <-. cbn [display index_register program_counter set_program_counter set_display set_registers set_index_register]. auto.
    + rewrite (execute_13 _ _ E) in H.
      destruct (index (registers chip) (GetNibbles opcode 8 _)) as [x|]; [|done].
      cbn [mbind option_bind] in H.
      destruct (index (registers chip) (GetNibbles opcode 4 _)) as [y|]; [|done].
      cbn [mbind option_bind] in H.
      destruct (store (registers chip) 15 0) as [regs|]; [|done].
      cbn [mbind option_bind] in H.
      destruct (draw_rows _ _ _ _ _ _ _ _) as [[disp regs']|] eqn:Hdraw; [|done].
      injection H as <- <-. cbn [display index_register program_counter set_program_counter set_display set_registers set_index_register]. split; [|by left].
      intros Hd. eapply draw_rows_cells; [|exact Hd|exact Hdraw]. by right.
  - rewrite (execute_default _ _ Hout) in H. injection H as <- <-. auto.
Qed.

(** X24. What every reachable state satisfies: the program counter is at most
    4096, the index register is below 4096 (only ANNN writes it, with a
    12-bit operand), and every cell of the display is 0 or 1. *)
Theorem reachable_bounds chip :
  reachable chip →
  0 <= program_counter chip <= 4096 ∧ 0 <= index_register chip < 4096 ∧
  display_bits (display chip).
Proof.
  induction 1 as [chip H|chip file chip' ok out Hr IH Hb H|chip chip' out Hr IH H].
  - rewrite NewChip_returns in H. injection H as <-.
    cbn [program_counter index_register display initial_chip].
    split; [lia|]. split; [lia|]. exact zero_display_bits.
  - rewrite (LoadROM_only_memory _ _ _ _ _ H). exact IH.
  - destruct IH as (Hpc & HI & Hd). split; [|].
    + eapply Cycle_program_counter; [by apply reachable_wf|exact H].
    + unfold Cycle in H. destruct (fetch chip) as [opcode|]; [|done].
      cbn [mbind option_bind] in H.
      apply execute_display_index in H as [Hd' [-> | ->]].
      * auto.
      * split; [|auto]. pose proof (nibble_NNN_range opcode).
        unfold u16. rewrite Z.mod_small; lia.
Qed.

Lemma reachable_bounds_witness :
  reachable (ran sprite_twice 5) ∧
  0 <= program_counter (ran sprite_twice 5) <= 4096 ∧
  0 <= index_register (ran sprite_twice 5) < 4096 ∧
  display_bits (display (ran sprite_twice 5)).
Proof.
  split; [exact reachable_ran_sprite_twice_5|].
  apply (reachable_bounds (ran sprite_twice 5)).
  exact reachable_ran_sprite_twice_5.
Defined.
